(** * artifact-swarm-pinner: a shallow embedding of [src/index.js]

    The script fetches the newest build artifact of a repository, extracts
    it, uploads the directory to a Swarm node, waits until the upload tag
    reports full replication, and finally publishes the reference on a feed.

    Every external collaborator (GitHub, the file system, the Bee node, the
    wallet library, the progress bar, the console) is modelled in two halves:
    - what it answers is read from an environment record [Env];
    - what the script asks of it is recorded, in order, as a list of [Event]s.
    The script itself becomes a computation in the monad [M] below, which
    carries the event trace and the way the computation ended. *)

From Stdlib Require Import ZArith List String Ascii Bool Lia.
From Stdlib Require Import Permutation Sorted DecimalString.
From ExtLib Require Import Structures.Monad.
Import ListNotations MonadNotation.

Local Open Scope string_scope.
Local Open Scope list_scope.
Local Open Scope Z_scope.
Local Open Scope monad_scope.

(** ** Data *)

(** A JavaScript number used as a counter or identifier is a [Z]. *)

(** The tag object returned by [bee.createTag] and [bee.retrieveTag]. *)
Record Tag := mkTag { uid : Z; split : Z; seen : Z; synced : Z }.

(** A postage batch as returned by [bee.getAllPostageBatch]. *)
Record PostageBatch := mkBatch { batchID : string; batchTTL : Z; usable : bool }.

(** An artifact of the GitHub listing; [created_at] is the time value of
    [new Date(created_at)], in milliseconds. *)
Record Artifact := mkArtifact { id : Z; created_at : Z }.

(** The options object literal handed to [bee.uploadFilesFromDirectory]. *)
Record UploadOptions := mkOptions {
  indexDocument : string;
  errorDocument : string;
  tag : option Z;
  pin : bool;
  encrypt : bool;
  deferred : bool;
  redundancyLevel : option Z
}.

(** The result of [Wallet.fromV3]. *)
Record Wallet := mkWallet { getPrivateKey : string; getAddressString : string }.

(** The object built by [bee.makeFeedWriter]. *)
Record FeedWriter := mkWriter {
  writer_type : string;
  writer_topic : string;
  writer_key : string
}.

(** A thrown value: [new Error(msg)], or the rejection of an external call. *)
Definition Error := string.

(** The settlement of an awaited external promise. *)
Inductive Res (A : Type) : Type :=
| Ok (a : A)
| Fail (e : Error).
Arguments Ok {A} a.
Arguments Fail {A} e.

(** Everything the script does to the outside world. *)
Inductive Event : Type :=
| FsRm (path : string)
| ListArtifacts (owner repo : string) (name : option string)
| GetArtifactZip (owner repo : string) (artifact_id : option Z)
| DownloadAndExtract (url path : string)
| FsStat (path : string)
| ConsoleLog (msg : string)
| ConsoleError (msg : string)
| GetAllPostageBatch
| CreateTag
| UploadFilesFromDirectory (batch dir : string) (options : UploadOptions)
| RetrieveTag (tag_uid : Z)
| BarStart (total startValue : Z)
| BarSetTotal (total : Z)
| BarUpdate (value : Z)
| BarStop
| SleepMillis (n : Z)
| WalletFromV3 (v3 pass : string)
| CreateFeedManifest (stamp type topic owner : string)
| FeedWriterUpload (w : FeedWriter) (stamp reference : string).

(** ** The effect monad *)

(** How a computation ends: it returns, it throws, the process exits, or
    the scripted answers of the environment run out while it is still
    waiting for one ([Pending]). *)
Inductive Outcome (A : Type) : Type :=
| Returned (a : A)
| Threw (e : Error)
| Exited (code : Z)
| Pending.
Arguments Returned {A} a.
Arguments Threw {A} e.
Arguments Exited {A} code.
Arguments Pending {A}.

Definition M (A : Type) : Type := (list Event * Outcome A)%type.

Definition trace {A} (m : M A) : list Event := fst m.
Definition outcome {A} (m : M A) : Outcome A := snd m.

(** [prefix tr m] is [m] run after the events [tr] have happened. *)
Definition prefix {A} (tr : list Event) (m : M A) : M A :=
  (tr ++ trace m, outcome m).

Definition M_bind {A B} (m : M A) (k : A -> M B) : M B :=
  match outcome m with
  | Returned a => prefix (trace m) (k a)
  | Threw e => (trace m, Threw e)
  | Exited c => (trace m, Exited c)
  | Pending => (trace m, Pending)
  end.

#[export] Instance Monad_M : Monad M :=
  {| ret := fun _ a => ([], Returned a); bind := fun _ _ => M_bind |}.

(** An effect with no interesting answer. *)
Definition emit (e : Event) : M unit := ([e], Returned tt).

(** [await e r]: the call [e] is made and its promise settles as [r]. *)
Definition await {A} (e : Event) (r : Res A) : M A :=
  ([e], match r with Ok a => Returned a | Fail err => Threw err end).

(** [throw new Error(msg)] *)
Definition throw {A} (msg : Error) : M A := ([], Threw msg).

(** [process.exit(code)] *)
Definition process_exit {A} (code : Z) : M A := ([], Exited code).

(** [try { m } catch { h }]: only a thrown value reaches the handler. *)
Definition try_catch {A} (m : M A) (h : M A) : M A :=
  match outcome m with
  | Threw _ => prefix (trace m) h
  | _ => m
  end.

(** ** The environment *)

Definition OUT_DIR : string := "./artifact".

Record Env := mkEnv {
  (* process.env *)
  OWNER : string;
  REPO : string;
  BUILD_NAME : option string;
  V3_WALLET : string;
  V3_PASS : string;
  TOPIC : string;
  BEE_API_URL : string;
  (* [bee.url], the address the client built on line 18 reports as its own *)
  bee_url : string;
  (* the file system *)
  fs_rm : Res unit;
  fs_stat_isDirectory : string -> Res bool;
  (* GitHub *)
  list_artifacts : Res (option (list Artifact));
  artifact_zip_url : option Z -> Res string;
  download_and_extract : string -> Res unit;
  (* the Bee node *)
  getAllPostageBatch : Res (list PostageBatch);
  createTag : Res Tag;
  uploadFilesFromDirectory : string -> string -> UploadOptions -> Res string;
  retrieveTag : list (Res Tag);
  makeFeedTopic : string -> string;
  createFeedManifest : string -> string -> string -> string -> Res string;
  feed_upload : FeedWriter -> string -> string -> Res string;
  (* the wallet library *)
  wallet_fromV3 : string -> string -> Res Wallet
}.

(** ** [getArtifactId] (lines 20-38) *)

(** The comparator [(a, b) => new Date(b.created_at) - new Date(a.created_at)]. *)
Definition newest_first (a b : Artifact) : Z := created_at b - created_at a.

(** [Array.prototype.sort] is stable and, for a consistent comparator such
    as the one above, its result is the unique stable ordering; insertion
    sort computes it. [insert_sorted] puts [a], which stood before every
    element of [l], in front of the first [b] it need not follow. *)
Fixpoint insert_sorted {A} (cmp : A -> A -> Z) (a : A) (l : list A) : list A :=
  match l with
  | [] => [a]
  | b :: l' => if cmp a b <=? 0 then a :: l else b :: insert_sorted cmp a l'
  end.

Fixpoint sort {A} (cmp : A -> A -> Z) (l : list A) : list A :=
  match l with
  | [] => []
  | a :: l' => insert_sorted cmp a (sort cmp l')
  end.

(** The one-character string holding a double quote (code 34). *)
Definition dquote : string :=
  String (Ascii false true false false false true false false) EmptyString.

(** The template literal of line 33; [BUILD_NAME] is falsy when it is
    [undefined] or the empty string. *)
Definition no_artifacts_message (build_name : option string) : string :=
  String.append "No artifacts found"
    match build_name with
    | Some (String c s) => (" with name " ++ dquote ++ String c s ++ dquote)%string
    | _ => EmptyString
    end.

(** The part of [getArtifactId] after the listing has arrived (lines 31-37);
    [None] is [undefined], for which [?.length] is [undefined] too. *)
Definition pick_newest (build_name : option string)
    (web3BuildArtifacts : option (list Artifact)) : M (option Z) :=
  match web3BuildArtifacts with
  | None | Some [] => throw (no_artifacts_message build_name)
  | Some l => ret (option_map id (hd_error (sort newest_first l)))
  end.

Definition getArtifactId (env : Env) : M (option Z) :=
  response <- await (ListArtifacts (OWNER env) (REPO env) (BUILD_NAME env))
                    (list_artifacts env) ;;
  pick_newest (BUILD_NAME env) response.

(** ** [downloadAndExtractArtifact] (lines 40-64) *)

Definition downloadAndExtractArtifact (env : Env) (artifactId : option Z) : M unit :=
  zipUrl <- await (GetArtifactZip (OWNER env) (REPO env) artifactId)
                  (artifact_zip_url env artifactId) ;;
  await (DownloadAndExtract zipUrl OUT_DIR) (download_and_extract env zipUrl) ;;
  emit (ConsoleLog "Artifact extracted!").

(** ** [waitForFileSynced] (lines 112-147) *)

Definition pollingTime : Z := 500.
Definition pollingTrials : Z := 15.

(** The [for] loop of lines 120-138, started at its test [i < pollingTrials].
    [responses] scripts the answers of the successive [bee.retrieveTag]
    calls. The result is the flag [synced]. *)
Fixpoint poll_loop (responses : list (Res Tag)) (i syncProgress : Z) (tag : Tag)
    {struct responses} : M bool :=
  if i <? pollingTrials then
    match responses with
    | [] => ([], Pending)
    | r :: rest =>
        tag <- await (RetrieveTag (uid tag)) r ;;
        let newSyncProgress := seen tag + synced tag in
        let i := if newSyncProgress >? syncProgress then 0 else i in
        let syncProgress := newSyncProgress in
        if syncProgress >=? split tag then ret true
        else
          emit (BarSetTotal (split tag)) ;;
          emit (BarUpdate syncProgress) ;;
          emit (SleepMillis pollingTime) ;;
          poll_loop rest (i + 1) syncProgress tag
    end
  else ret false.

Definition waitForFileSynced (responses : list (Res Tag)) (tag : Tag) : M unit :=
  emit (BarStart (split tag) 0) ;;
  synced <- poll_loop responses 0 0 tag ;;
  emit BarStop ;;
  if synced : bool then emit (ConsoleLog "Data has been synced on Swarm network")
  else
    emit (ConsoleError "Data syncing timeout") ;;
    process_exit 1.

(** ** [writeFeed] and [updateFeedAndPrint] (lines 96-110) *)

Definition writeFeed (env : Env) (stamp : string) (wallet : Wallet)
    (topic chunkReference : string) : M (string * string) :=
  let writer := mkWriter "sequence" topic (getPrivateKey wallet) in
  manifest <- await (CreateFeedManifest stamp "sequence" topic (getAddressString wallet))
                    (createFeedManifest env stamp "sequence" topic (getAddressString wallet)) ;;
  reference <- await (FeedWriterUpload writer stamp chunkReference)
                     (feed_upload env writer stamp chunkReference) ;;
  ret (reference, manifest).

Definition bzz_url (env : Env) (reference : string) : string :=
  (bee_url env ++ "/bzz/" ++ reference ++ "/")%string.

Definition updateFeedAndPrint (env : Env) (stamp chunkReference : string) : M unit :=
  wallet <- await (WalletFromV3 (V3_WALLET env) (V3_PASS env))
                  (wallet_fromV3 env (V3_WALLET env) (V3_PASS env)) ;;
  let topic := makeFeedTopic env (TOPIC env) in
  written <- writeFeed env stamp wallet topic chunkReference ;;
  emit (ConsoleLog (String.append "Feed Manifest URL: " (bzz_url env (snd written)))) ;;
  emit (ConsoleLog "Successfully uploaded to feed").

(** ** [upload] (lines 66-94) *)

(** [b => b.batchTTL > 0 && b.usable] *)
Definition eligible (b : PostageBatch) : bool := (batchTTL b >? 0) && usable b.

(** Lines 67-70 once the list has arrived: [batches.filter(...)[0]], and
    the [throw] when that is [undefined]. *)
Definition select_batch (batches : list PostageBatch) : M PostageBatch :=
  match hd_error (filter eligible batches) with
  | None => throw "No usable postage batch found"
  | Some batch => ret batch
  end.

(** A tag object is truthy, so [tag && tag.uid] is [tag.uid];
    [redundancyLevel: undefined] is [None]. *)
Definition upload (env : Env) : M unit :=
  batches <- await GetAllPostageBatch (getAllPostageBatch env) ;;
  batch <- select_batch batches ;;
  tag <- await CreateTag (createTag env) ;;
  emit (ConsoleLog "Uploading data") ;;
  let options :=
    {| indexDocument := "index.html";
       errorDocument := "404.html";
       tag := Some (uid tag);
       pin := true;
       encrypt := false;
       deferred := true;
       redundancyLevel := None |} in
  reference <- await (UploadFilesFromDirectory (batchID batch) OUT_DIR options)
                     (uploadFilesFromDirectory env (batchID batch) OUT_DIR options) ;;
  emit (ConsoleLog (String.append "Uploading done: " (bzz_url env reference))) ;;
  emit (ConsoleLog (String.append "Ref: " reference)) ;;
  emit (ConsoleLog "Waiting for file chunks to be synced on Swarm network...") ;;
  waitForFileSynced (retrieveTag env) tag ;;
  emit (ConsoleLog "Uploading was successful!") ;;
  emit (ConsoleLog "Uploading to Feed...") ;;
  updateFeedAndPrint env (batchID batch) reference.

(** ** [main] (lines 157-180) *)

Definition show_id (artifactId : option Z) : string :=
  match artifactId with
  | Some n => NilZero.string_of_int (Z.to_int n)
  | None => "undefined"
  end.

Definition index_html : string := String.append OUT_DIR "/index.html".

Definition main (env : Env) : M string :=
  await (FsRm OUT_DIR) (fs_rm env) ;;
  artifactId <- getArtifactId env ;;
  emit (ConsoleLog (String.append "Last artifact ID: " (show_id artifactId))) ;;
  downloadAndExtractArtifact env artifactId ;;
  isDirectory <- await (FsStat OUT_DIR) (fs_stat_isDirectory env OUT_DIR) ;;
  (if isDirectory : bool then ret tt
   else
     emit (ConsoleError ("Directory " ++ OUT_DIR ++ " does not exist")%string) ;;
     process_exit 1) ;;
  try_catch
    (await (FsStat index_html) (fs_stat_isDirectory env index_html) ;; ret tt)
    (emit (ConsoleError (String.append "No index.html in " OUT_DIR)) ;;
     process_exit 1) ;;
  upload env ;;
  ret "done".

(** [main().then(r => console.log(r))] *)
Definition program (env : Env) : M unit :=
  r <- main env ;;
  emit (ConsoleLog r).

(** * Vocabulary of the properties *)

(** ** The replication monitor *)

(** The quantity the loop compares: [tag.seen + tag.synced]. *)
Definition progress (t : Tag) : Z := seen t + synced t.

(** The number of polls of the upload tag that a trace contains. *)
Fixpoint polls (tr : list Event) : nat :=
  match tr with
  | [] => O
  | RetrieveTag _ :: tr' => S (polls tr')
  | _ :: tr' => polls tr'
  end.

(** What a poll that neither completes nor fails does before the next one. *)
Definition tick (tag t : Tag) : list Event :=
  [RetrieveTag (uid tag); BarSetTotal (split t); BarUpdate (progress t);
   SleepMillis pollingTime].

(** How [waitForFileSynced] ends, read off the loop. *)
Definition epilogue (loop : Outcome bool) : list Event :=
  match loop with
  | Returned true => [BarStop; ConsoleLog "Data has been synced on Swarm network"]
  | Returned false => [BarStop; ConsoleError "Data syncing timeout"]
  | _ => []
  end.

(** What [waitForFileSynced] makes of the flag [synced]. *)
Definition verdict (loop : Outcome bool) : Outcome unit :=
  match loop with
  | Returned true => Returned tt
  | Returned false => Exited 1
  | Threw e => Threw e
  | Exited c => Exited c
  | Pending => Pending
  end.

(** A script on which progress never rises above the value last observed
    and never reaches [split]. *)
Fixpoint stalled (last : Z) (ts : list Tag) : Prop :=
  match ts with
  | [] => True
  | t :: ts' => progress t <= last /\ progress t < split t /\ stalled (progress t) ts'
  end.

(** Sample tags: an upload of 1000 chunks of which none is seen, and a
    fresh tag for an upload of 500 chunks. *)
Definition stalled_tag : Tag := mkTag 7 1000 0 0.

Definition tag0 : Tag := mkTag 7 500 0 0.

(** The script of the stall-reset example: 14 stalled polls, one poll that
    shows progress, then 15 more stalled polls, all short of [split]. *)
Definition reset_script : list (Res Tag) :=
  repeat (Ok (mkTag 7 1000 0 0)) 14
    ++ [Ok (mkTag 7 1000 1 0)]
    ++ repeat (Ok (mkTag 7 1000 1 0)) 15.

(** The notifications a trace gives the progress bar while polling: a
    [setTotal(total)] directly followed by [update(value)] tells it the
    pair [(value, total)]. *)
Fixpoint notifications (tr : list Event) : list (Z * Z) :=
  match tr with
  | [] => []
  | BarSetTotal total :: tr' =>
      match tr' with
      | BarUpdate value :: _ => (value, total) :: notifications tr'
      | _ => notifications tr'
      end
  | _ :: tr' => notifications tr'
  end.

(** The claim that every poll is reported: the notifications are, in order,
    the pairs [(progress, split)] of the snapshots that were polled. *)
Definition every_poll_notified (ts : list Tag) (tr : list Event) : Prop :=
  notifications tr
  = map (fun t => (progress t, split t)) (firstn (polls tr) ts).

(** What the loop does instead: it reports the polls that fell short. *)
Definition incomplete (t : Tag) : bool := progress t <? split t.

(** The notifications are, in order, the pairs of the polled snapshots
    that were incomplete. *)
Definition incomplete_polls_notified (ts : list Tag) (tr : list Event) : Prop :=
  notifications tr
  = map (fun t => (progress t, split t)) (filter incomplete (firstn (polls tr) ts)).

(** ** Artifacts *)

(** [a] may stand before [b] in the newest-first order. *)
Definition not_older (a b : Artifact) : Prop := created_at b <= created_at a.

(** A sample listing with two artifacts of the same, newest, date. *)
Definition listing : list Artifact :=
  [mkArtifact 11 100; mkArtifact 12 300; mkArtifact 13 300].

(** ** Runs of the pipeline *)

(** If the event is an upload, its manifest options are the constants of
    lines 75-81. *)
Definition fixed_manifest_configuration (e : Event) : Prop :=
  match e with
  | UploadFilesFromDirectory _ _ options =>
      indexDocument options = "index.html"
      /\ errorDocument options = "404.html"
      /\ pin options = true
      /\ encrypt options = false
      /\ deferred options = true
      /\ redundancyLevel options = None
  | _ => True
  end.

(** Calls to the Bee node. *)
Definition bee_event (e : Event) : bool :=
  match e with
  | GetAllPostageBatch | CreateTag | UploadFilesFromDirectory _ _ _
  | RetrieveTag _ | CreateFeedManifest _ _ _ _ | FeedWriterUpload _ _ _ => true
  | _ => false
  end.

(** An event that leaves the Bee node alone. *)
Definition quiet (e : Event) : Prop := bee_event e = false.

(** How a run ends that looks for the entry point in vain (lines 169-174). *)
Definition no_index_html : list Event :=
  [FsStat index_html; ConsoleError "No index.html in ./artifact"].

(** A sample environment: everything answers well, except as the two
    parameters say. *)
Definition sample_env (index : Res bool) (batches : list PostageBatch) : Env :=
  {| OWNER := "nipsysdev";
     REPO := "site";
     BUILD_NAME := Some "web3-build";
     V3_WALLET := "{}";
     V3_PASS := "secret";
     TOPIC := "site";
     BEE_API_URL := "http://localhost:1633/";
     bee_url := "http://localhost:1633";
     fs_rm := Ok tt;
     fs_stat_isDirectory :=
       fun path => if String.eqb path index_html then index else Ok true;
     list_artifacts := Ok (Some listing);
     artifact_zip_url := fun _ => Ok "https://example.org/artifact.zip";
     download_and_extract := fun _ => Ok tt;
     getAllPostageBatch := Ok batches;
     createTag := Ok (mkTag 7 500 0 0);
     uploadFilesFromDirectory := fun _ _ _ => Ok "c0ffee";
     retrieveTag := [Ok (mkTag 7 500 100 0); Ok (mkTag 7 500 150 100);
                     Ok (mkTag 7 500 250 250)];
     makeFeedTopic := fun name => name;
     createFeedManifest := fun _ _ _ _ => Ok "f00d";
     feed_upload := fun _ _ _ => Ok "beef";
     wallet_fromV3 := fun _ _ => Ok (mkWallet "key" "0xabc") |}.

(** An expired batch followed by a usable one. *)
Definition sample_batches : list PostageBatch :=
  [mkBatch "b0" 0 true; mkBatch "b1" 100 true].

(** What the Bee node is asked once a batch has been selected. *)
Definition past_selection (e : Event) : bool :=
  match e with
  | CreateTag | UploadFilesFromDirectory _ _ _ | RetrieveTag _
  | CreateFeedManifest _ _ _ _ | FeedWriterUpload _ _ _ => true
  | _ => false
  end.

(** An upload event is backed by a selection that succeeded on the list
    the node returned, and it uses the selected batch. *)
Definition selected_for (env : Env) (e : Event) : Prop :=
  match e with
  | UploadFilesFromDirectory b _ _ =>
      exists batches batch,
        getAllPostageBatch env = Ok batches
        /\ select_batch batches = ([], Returned batch)
        /\ b = batchID batch
  | _ => True
  end.

(** ** Further vocabulary: the monitor *)

(** The number of snapshots of a script that show more progress than the
    one before (the first is compared with [last]). *)
Fixpoint increases (last : Z) (ts : list Tag) : nat :=
  match ts with
  | [] => O
  | t :: ts' =>
      ((if progress t >? last then 1 else 0) + increases (progress t) ts')%nat
  end.

(** A script on which every snapshot shows more progress than the one
    before and none reaches [split]. *)
Fixpoint rising (last : Z) (ts : list Tag) : Prop :=
  match ts with
  | [] => True
  | t :: ts' => last < progress t /\ progress t < split t /\ rising (progress t) ts'
  end.

(** The time a trace spends in [sleepMillis], in milliseconds. *)
Fixpoint slept (tr : list Event) : Z :=
  match tr with
  | [] => 0
  | SleepMillis n :: tr' => n + slept tr'
  | _ :: tr' => slept tr'
  end.

(** The tag identifiers a trace asks the node about, in order. *)
Fixpoint polled_uids (tr : list Event) : list Z :=
  match tr with
  | [] => []
  | RetrieveTag u :: tr' => u :: polled_uids tr'
  | _ :: tr' => polled_uids tr'
  end.

(** A script of 40 snapshots with progress 1, 2, ..., 40 out of 1000. *)
Definition trickle : list Tag :=
  map (fun n => mkTag 7 1000 (Z.of_nat n) 0) (seq 1 40).

(** The three snapshots of a run that reaches 500 of 500 chunks. *)
Definition syncing_script : list Tag :=
  [mkTag 7 500 100 0; mkTag 7 500 150 100; mkTag 7 500 250 250].

(** ** Further vocabulary: the order of the external calls *)

(** How far a run has got, counted in the calls it has made. *)
Inductive Stage : Type :=
| Fresh | Cleared | Listed | Located | Extracted | DirChecked | IndexChecked
| BatchesListed | Tagged | Uploaded | Unlocked | Manifested | Published.

(** The stage after event [e] at stage [s]; [None] when the call [e] is
    out of turn. Console, progress bar and sleep are no calls and leave
    the stage as it is; polls of the tag may repeat. *)
Definition advance (s : Stage) (e : Event) : option Stage :=
  match e, s with
  | FsRm _, Fresh => Some Cleared
  | ListArtifacts _ _ _, Cleared => Some Listed
  | GetArtifactZip _ _ _, Listed => Some Located
  | DownloadAndExtract _ _, Located => Some Extracted
  | FsStat path, Extracted =>
      if String.eqb path OUT_DIR then Some DirChecked else None
  | FsStat path, DirChecked =>
      if String.eqb path index_html then Some IndexChecked else None
  | GetAllPostageBatch, IndexChecked => Some BatchesListed
  | CreateTag, BatchesListed => Some Tagged
  | UploadFilesFromDirectory _ _ _, Tagged => Some Uploaded
  | RetrieveTag _, Uploaded => Some Uploaded
  | WalletFromV3 _ _, Uploaded => Some Unlocked
  | CreateFeedManifest _ _ _ _, Unlocked => Some Manifested
  | FeedWriterUpload _ _ _, Manifested => Some Published
  | (ConsoleLog _ | ConsoleError _ | BarStart _ _ | BarSetTotal _ | BarUpdate _
     | BarStop | SleepMillis _), _ => Some s
  | _, _ => None
  end.

Fixpoint run_protocol (s : Stage) (tr : list Event) : option Stage :=
  match tr with
  | [] => Some s
  | e :: tr' =>
      match advance s e with
      | Some s' => run_protocol s' tr'
      | None => None
      end
  end.

(** From stage [s] the calls of [m] come in turn, and if [m] returns [a]
    at stage [s'] then [Q a s']. *)
Definition conforms {A} (s : Stage) (m : M A) (Q : A -> Stage -> Prop) : Prop :=
  exists s', run_protocol s (trace m) = Some s'
             /\ forall a, outcome m = Returned a -> Q a s'.

(** ** Further vocabulary: what stands behind the calls to the node *)

(** An upload sends './artifact' under the [uid] of the tag created for
    it; a poll of a tag happens only once the upload has returned. *)
Definition upload_backed (env : Env) (e : Event) : Prop :=
  match e with
  | UploadFilesFromDirectory _ dir options =>
      dir = OUT_DIR
      /\ exists t, createTag env = Ok t /\ tag options = Some (uid t)
  | RetrieveTag _ =>
      exists batch t options reference,
        createTag env = Ok t
        /\ tag options = Some (uid t)
        /\ uploadFilesFromDirectory env (batchID batch) OUT_DIR options = Ok reference
  | _ => True
  end.

(** ** Further vocabulary: how a run ends *)

(** The messages that go with an exit of the process. *)
Definition exit_messages : list string :=
  ["Directory ./artifact does not exist"; "No index.html in ./artifact";
   "Data syncing timeout"].

(** If [m] exits the process, the code is 1 and the last thing [m] did was
    to print one of the [exit_messages] on the error console. *)
Definition exits_loudly {A} (m : M A) : Prop :=
  forall c, outcome m = Exited c ->
            c = 1
            /\ exists tr msg, trace m = tr ++ [ConsoleError msg] /\ In msg exit_messages.

(** The message of line 165. *)
Definition not_a_directory : string := "Directory ./artifact does not exist".

(** [env] with another file system behind [fs.stat]. *)
Definition with_fs_stat (stat : string -> Res bool) (env : Env) : Env :=
  {| OWNER := OWNER env;
     REPO := REPO env;
     BUILD_NAME := BUILD_NAME env;
     V3_WALLET := V3_WALLET env;
     V3_PASS := V3_PASS env;
     TOPIC := TOPIC env;
     BEE_API_URL := BEE_API_URL env;
     bee_url := bee_url env;
     fs_rm := fs_rm env;
     fs_stat_isDirectory := stat;
     list_artifacts := list_artifacts env;
     artifact_zip_url := artifact_zip_url env;
     download_and_extract := download_and_extract env;
     getAllPostageBatch := getAllPostageBatch env;
     createTag := createTag env;
     uploadFilesFromDirectory := uploadFilesFromDirectory env;
     retrieveTag := retrieveTag env;
     makeFeedTopic := makeFeedTopic env;
     createFeedManifest := createFeedManifest env;
     feed_upload := feed_upload env;
     wallet_fromV3 := wallet_fromV3 env |}.

(** A workspace where './artifact' turns out to be a plain file. *)
Definition file_env : Env :=
  with_fs_stat (fun _ => Ok false) (sample_env (Ok false) sample_batches).

(** ** Further vocabulary: what the output says *)

(** The options object of lines 75-81 for an upload under the tag [t]. *)
Definition options_for (t : Tag) : UploadOptions :=
  mkOptions "index.html" "404.html" (Some (uid t)) true false true None.

(** The events [w] occur in [l], in this order and with nothing between. *)
Definition segment (w l : list Event) : Prop :=
  exists pre post, l = pre ++ w ++ post.

(** [P before e] holds of every event [e] of [tr], where [before] lists
    the events ahead of [e], those of [ahead] first. *)
Fixpoint follows (P : list Event -> Event -> Prop) (ahead tr : list Event) : Prop :=
  match tr with
  | [] => True
  | e :: tr' => P ahead e /\ follows P (ahead ++ [e]) tr'
  end.

(** What stands behind a feed write that comes after the events [before]:
    the batch selected from the node's list pays for it; it publishes the
    reference that the upload of './artifact' under the created tag
    returned; [before] holds that upload and then the whole run of the
    monitor on the created tag, which reported it synced; the writer is a
    sequence-feed writer for the configured topic with the key of the
    unlocked wallet, and the manifest for that wallet's address was asked
    for and created. *)
Definition feed_write_backed (env : Env) (before : list Event) (e : Event) : Prop :=
  match e with
  | FeedWriterUpload w stamp reference =>
      exists batches batch t wallet manifest,
        getAllPostageBatch env = Ok batches
        /\ select_batch batches = ([], Returned batch)
        /\ createTag env = Ok t
        /\ uploadFilesFromDirectory env (batchID batch) OUT_DIR (options_for t)
           = Ok reference
        /\ In (UploadFilesFromDirectory (batchID batch) OUT_DIR (options_for t)) before
        /\ segment (trace (waitForFileSynced (retrieveTag env) t)) before
        /\ outcome (waitForFileSynced (retrieveTag env) t) = Returned tt
        /\ wallet_fromV3 env (V3_WALLET env) (V3_PASS env) = Ok wallet
        /\ createFeedManifest env (batchID batch) "sequence"
             (makeFeedTopic env (TOPIC env)) (getAddressString wallet) = Ok manifest
        /\ In (CreateFeedManifest (batchID batch) "sequence"
                 (makeFeedTopic env (TOPIC env)) (getAddressString wallet)) before
        /\ stamp = batchID batch
        /\ w = mkWriter "sequence" (makeFeedTopic env (TOPIC env)) (getPrivateKey wallet)
  | _ => True
  end.

(** What stands behind a status line that comes after the events
    [before]: each of the three is printed only when the step it reports
    went through in this run, on this run's artifact, tag, batch, reference
    and wallet. *)
Definition log_truthful (env : Env) (before : list Event) (e : Event) : Prop :=
  match e with
  | ConsoleLog msg =>
      (msg = "Artifact extracted!" ->
       exists l url,
         list_artifacts env = Ok (Some l)
         /\ l <> []
         /\ artifact_zip_url env (option_map id (hd_error (sort newest_first l))) = Ok url
         /\ download_and_extract env url = Ok tt
         /\ In (DownloadAndExtract url OUT_DIR) before)
      /\ (msg = "Uploading was successful!" ->
          exists batches batch t reference,
            getAllPostageBatch env = Ok batches
            /\ select_batch batches = ([], Returned batch)
            /\ createTag env = Ok t
            /\ uploadFilesFromDirectory env (batchID batch) OUT_DIR (options_for t)
               = Ok reference
            /\ In (UploadFilesFromDirectory (batchID batch) OUT_DIR (options_for t)) before
            /\ segment (trace (waitForFileSynced (retrieveTag env) t)) before
            /\ outcome (waitForFileSynced (retrieveTag env) t) = Returned tt)
      /\ (msg = "Successfully uploaded to feed" ->
          exists batches batch t reference wallet entry,
            getAllPostageBatch env = Ok batches
            /\ select_batch batches = ([], Returned batch)
            /\ createTag env = Ok t
            /\ uploadFilesFromDirectory env (batchID batch) OUT_DIR (options_for t)
               = Ok reference
            /\ wallet_fromV3 env (V3_WALLET env) (V3_PASS env) = Ok wallet
            /\ feed_upload env
                 (mkWriter "sequence" (makeFeedTopic env (TOPIC env)) (getPrivateKey wallet))
                 (batchID batch) reference = Ok entry
            /\ In (FeedWriterUpload
                     (mkWriter "sequence" (makeFeedTopic env (TOPIC env))
                               (getPrivateKey wallet))
                     (batchID batch) reference) before)
  | _ => True
  end.

(** What a run has established before it first calls the Bee node. *)
Definition workspace_validated (env : Env) : Prop :=
  fs_rm env = Ok tt
  /\ (exists l url,
         list_artifacts env = Ok (Some l)
         /\ l <> []
         /\ artifact_zip_url env (option_map id (hd_error (sort newest_first l))) = Ok url
         /\ download_and_extract env url = Ok tt)
  /\ fs_stat_isDirectory env OUT_DIR = Ok true
  /\ exists d, fs_stat_isDirectory env index_html = Ok d.

(** The sample run in which nothing goes wrong. *)
Definition happy_env : Env := sample_env (Ok false) sample_batches.

(** * Properties *)

(** ** The monad *)

Lemma bind_returned {A B} (tr : list Event) (a : A) (k : A -> M B) :
  bind ((tr, Returned a) : M A) k = prefix tr (k a).
Proof. reflexivity. Qed.

Lemma prefix_nil {A} (m : M A) : prefix [] m = m.
Proof. destruct m; reflexivity. Qed.

Lemma prefix_prefix {A} (tr1 tr2 : list Event) (m : M A) :
  prefix tr1 (prefix tr2 m) = prefix (tr1 ++ tr2) m.
Proof. unfold prefix; cbn. now rewrite app_assoc. Qed.

Lemma trace_prefix {A} (tr : list Event) (m : M A) :
  trace (prefix tr m) = tr ++ trace m.
Proof. reflexivity. Qed.

Lemma outcome_prefix {A} (tr : list Event) (m : M A) :
  outcome (prefix tr m) = outcome m.
Proof. reflexivity. Qed.

(** ** The replication monitor *)

Lemma polls_app (tr1 tr2 : list Event) :
  polls (tr1 ++ tr2) = (polls tr1 + polls tr2)%nat.
Proof.
  induction tr1 as [|e tr1 IH]; [reflexivity|].
  destruct e; cbn; rewrite IH; reflexivity.
Qed.

(** One equation per way through the loop body. *)

Lemma poll_loop_exhausted rs i sp tag :
  pollingTrials <= i -> poll_loop rs i sp tag = ([], Returned false).
Proof.
  intros Hi. destruct rs; cbn [poll_loop];
    destruct (Z.ltb_spec i pollingTrials); (lia || reflexivity).
Qed.

Lemma poll_loop_pending i sp tag :
  i < pollingTrials -> poll_loop [] i sp tag = ([], Pending).
Proof.
  intros Hi. cbn [poll_loop].
  destruct (Z.ltb_spec i pollingTrials); (lia || reflexivity).
Qed.

Lemma poll_loop_rejected e rest i sp tag :
  i < pollingTrials ->
  poll_loop (Fail e :: rest) i sp tag = ([RetrieveTag (uid tag)], Threw e).
Proof.
  intros Hi. cbn [poll_loop].
  destruct (Z.ltb_spec i pollingTrials); (lia || reflexivity).
Qed.

Lemma poll_loop_synced t rest i sp tag :
  i < pollingTrials -> split t <= progress t ->
  poll_loop (Ok t :: rest) i sp tag = ([RetrieveTag (uid tag)], Returned true).
Proof.
  unfold progress. intros Hi Ht. cbn [poll_loop].
  destruct (Z.ltb_spec i pollingTrials); [|lia].
  unfold await. rewrite bind_returned.
  destruct (Z.geb_spec (seen t + synced t) (split t)); [reflexivity|lia].
Qed.

Lemma poll_loop_stall t rest i sp tag :
  i < pollingTrials -> progress t <= sp -> progress t < split t ->
  poll_loop (Ok t :: rest) i sp tag
  = prefix (tick tag t) (poll_loop rest (i + 1) (progress t) t).
Proof.
  unfold progress. intros Hi Hsp Ht. cbn [poll_loop].
  destruct (Z.ltb_spec i pollingTrials); [|lia].
  unfold await. rewrite bind_returned.
  destruct (Z.geb_spec (seen t + synced t) (split t)); [lia|].
  destruct (Z.gtb_spec (seen t + synced t) sp); [lia|].
  unfold emit. rewrite !bind_returned, !prefix_prefix. reflexivity.
Qed.

Lemma poll_loop_advance t rest i sp tag :
  i < pollingTrials -> sp < progress t -> progress t < split t ->
  poll_loop (Ok t :: rest) i sp tag
  = prefix (tick tag t) (poll_loop rest 1 (progress t) t).
Proof.
  unfold progress. intros Hi Hsp Ht. cbn [poll_loop].
  destruct (Z.ltb_spec i pollingTrials); [|lia].
  unfold await. rewrite bind_returned.
  destruct (Z.geb_spec (seen t + synced t) (split t)); [lia|].
  destruct (Z.gtb_spec (seen t + synced t) sp); [|lia].
  unfold emit. rewrite !bind_returned, !prefix_prefix. reflexivity.
Qed.

(** [waitForFileSynced] is its loop between the start of the bar and the
    epilogue. *)
Lemma waitForFileSynced_unfold rs tag :
  waitForFileSynced rs tag
  = (BarStart (split tag) 0 :: trace (poll_loop rs 0 0 tag)
       ++ epilogue (outcome (poll_loop rs 0 0 tag)),
     verdict (outcome (poll_loop rs 0 0 tag))).
Proof.
  unfold waitForFileSynced, emit. rewrite bind_returned.
  destruct (poll_loop rs 0 0 tag) as [tr [[|]|e|c|]]; cbn;
    now rewrite ?app_nil_r.
Qed.

Lemma stalled_app last ts1 ts2 :
  stalled last (ts1 ++ ts2) -> stalled last ts1.
Proof.
  revert last. induction ts1 as [|t ts1 IH]; cbn; [trivial|].
  intros last (H1 & H2 & H3). eauto.
Qed.

(** While the budget lasts, stalled polls keep the monitor waiting. *)
Lemma stalled_pending ts : forall i sp tag,
  stalled sp ts -> i + Z.of_nat (List.length ts) < pollingTrials ->
  outcome (poll_loop (map Ok ts) i sp tag) = Pending
  /\ polls (trace (poll_loop (map Ok ts) i sp tag)) = List.length ts.
Proof.
  induction ts as [|t ts IH]; intros i sp tag Hst Hlen.
  - cbn in Hlen. rewrite poll_loop_pending by lia. now split.
  - cbn [List.length] in Hlen. destruct Hst as (H1 & H2 & H3).
    cbn [map]. rewrite poll_loop_stall by lia.
    rewrite outcome_prefix, trace_prefix, polls_app.
    destruct (IH (i + 1) (progress t) t H3 ltac:(lia)) as [-> ->].
    now split.
Qed.

(** From counter value [i], exactly [pollingTrials - i] stalled polls end
    the loop with [synced] still false, whatever the script holds next. *)
Lemma stalled_exhausts ts : forall i sp tag rest,
  stalled sp ts -> i + Z.of_nat (List.length ts) = pollingTrials ->
  outcome (poll_loop (map Ok ts ++ rest) i sp tag) = Returned false
  /\ polls (trace (poll_loop (map Ok ts ++ rest) i sp tag)) = List.length ts.
Proof.
  induction ts as [|t ts IH]; intros i sp tag rest Hst Hlen.
  - cbn in Hlen. rewrite poll_loop_exhausted by lia. now split.
  - cbn [List.length] in Hlen. destruct Hst as (H1 & H2 & H3).
    cbn [map app]. rewrite poll_loop_stall by lia.
    rewrite outcome_prefix, trace_prefix, polls_app.
    destruct (IH (i + 1) (progress t) t rest H3 ltac:(lia)) as [-> ->].
    now split.
Qed.

(** A poll that shows progress restarts the counter at 0, and the loop
    header then moves it to 1: the next [pollingTrials - 1] stalled polls
    end the loop. *)
Lemma stall_budget_after_progress t ts i sp tag rest :
  i < pollingTrials -> sp < progress t -> progress t < split t ->
  stalled (progress t) ts -> List.length ts = 14%nat ->
  outcome (poll_loop (Ok t :: map Ok ts ++ rest) i sp tag) = Returned false
  /\ polls (trace (poll_loop (Ok t :: map Ok ts ++ rest) i sp tag)) = 15%nat.
Proof.
  intros Hi Hsp Ht Hst Hlen. rewrite poll_loop_advance by assumption.
  rewrite outcome_prefix, trace_prefix, polls_app.
  destruct (stalled_exhausts ts 1 (progress t) t rest Hst) as [-> ->].
  - rewrite Hlen. reflexivity.
  - rewrite Hlen. now split.
Qed.

(** C2. When progress never increases and never reaches [split], the
    monitor is still polling after fewer than 15 polls, and with the 15th
    stalled poll it logs the timeout and exits the process with code 1,
    having polled exactly 15 times. *)
Theorem timeout_after_exactly_15_stalled_polls (tag : Tag) (ts : list Tag) :
  stalled 0 ts ->
  ((List.length ts < 15)%nat ->
     outcome (waitForFileSynced (map Ok ts) tag) = Pending)
  /\ ((15 <= List.length ts)%nat ->
        outcome (waitForFileSynced (map Ok ts) tag) = Exited 1
        /\ polls (trace (waitForFileSynced (map Ok ts) tag)) = 15%nat
        /\ exists tr, trace (waitForFileSynced (map Ok ts) tag)
                      = tr ++ [BarStop; ConsoleError "Data syncing timeout"]).
Proof.
  intros Hst. rewrite waitForFileSynced_unfold. cbn [outcome trace fst snd]. split.
  - intros Hlen.
    destruct (stalled_pending ts 0 0 tag Hst) as [-> _]; [unfold pollingTrials; lia|].
    reflexivity.
  - intros Hlen. rewrite <- (firstn_skipn 15 ts) in Hst |- *.
    rewrite map_app.
    destruct (stalled_exhausts (firstn 15 ts) 0 0 tag (map Ok (skipn 15 ts)))
      as [Hout Hpolls].
    + eapply stalled_app, Hst.
    + rewrite firstn_length_le by lia. reflexivity.
    + rewrite Hout. cbn [verdict epilogue]. split; [reflexivity|]. split.
      * cbn [polls]. rewrite polls_app, Hpolls, firstn_length_le by lia.
        reflexivity.
      * eexists (_ :: _). reflexivity.
Qed.

Lemma timeout_after_exactly_15_stalled_polls_witness :
  stalled 0 (repeat stalled_tag 15)
  /\ outcome (waitForFileSynced (map Ok (repeat stalled_tag 15)) stalled_tag) = Exited 1
  /\ polls (trace (waitForFileSynced (map Ok (repeat stalled_tag 15)) stalled_tag)) = 15%nat.
Proof.
  assert (H : stalled 0 (repeat stalled_tag 15)) by (vm_compute; intuition discriminate).
  split; [exact H|].
  destruct (timeout_after_exactly_15_stalled_polls stalled_tag _ H) as [_ H15].
  destruct (H15 ltac:(cbn; lia)) as (Hout & Hpolls & _).
  split; assumption.
Defined.

Lemma last_cons {A} (a d : A) (l : list A) : last (a :: l) d = last l a.
Proof.
  revert a d. induction l as [|b l IH]; intros a d; [reflexivity|].
  change (last (a :: b :: l) d) with (last (b :: l) d).
  now rewrite !IH.
Qed.

(** If the loop is still waiting after the answers [ts], none of them was
    complete, and a complete answer arriving next ends the loop at once:
    the only further event is the poll itself. *)
Lemma poll_loop_syncs_at_once ts : forall i sp tag t rest,
  outcome (poll_loop (map Ok ts) i sp tag) = Pending ->
  split t <= progress t ->
  Forall (fun t' => progress t' < split t') ts
  /\ poll_loop (map Ok ts ++ Ok t :: rest) i sp tag
     = (trace (poll_loop (map Ok ts) i sp tag) ++ [RetrieveTag (uid (last ts tag))],
        Returned true).
Proof.
  induction ts as [|t0 ts IH]; intros i sp tag t rest Hpend Ht.
  - destruct (Z.lt_ge_cases i pollingTrials) as [Hi|Hi].
    + cbn [map app last]. rewrite poll_loop_synced, poll_loop_pending by assumption.
      now split.
    + cbn [map] in Hpend. rewrite poll_loop_exhausted in Hpend by assumption.
      discriminate.
  - cbn [map app] in *. rewrite last_cons.
    destruct (Z.lt_ge_cases i pollingTrials) as [Hi|Hi];
      [|rewrite poll_loop_exhausted in Hpend by assumption; discriminate].
    destruct (Z.lt_ge_cases (progress t0) (split t0)) as [H0|H0];
      [|rewrite poll_loop_synced in Hpend by assumption; discriminate].
    destruct (Z.lt_ge_cases sp (progress t0)) as [Hsp|Hsp].
    + rewrite poll_loop_advance in Hpend by assumption.
      rewrite !poll_loop_advance by assumption.
      destruct (IH 1 (progress t0) t0 t rest Hpend Ht) as [Hall ->].
      split; [now constructor|].
      unfold prefix, tick; cbn. reflexivity.
    + rewrite poll_loop_stall in Hpend by assumption.
      rewrite !poll_loop_stall by assumption.
      destruct (IH (i + 1) (progress t0) t0 t rest Hpend Ht) as [Hall ->].
      split; [now constructor|].
      unfold prefix, tick; cbn. reflexivity.
Qed.

(** A loop that is still waiting has polled once per answer. *)
Lemma pending_polls ts : forall i sp tag,
  outcome (poll_loop (map Ok ts) i sp tag) = Pending ->
  polls (trace (poll_loop (map Ok ts) i sp tag)) = List.length ts.
Proof.
  induction ts as [|t0 ts IH]; intros i sp tag Hp.
  - destruct (Z.lt_ge_cases i pollingTrials) as [Hi|Hi].
    + now rewrite poll_loop_pending.
    + now rewrite poll_loop_exhausted.
  - cbn [map] in *.
    destruct (Z.lt_ge_cases i pollingTrials) as [Hi|Hi];
      [|rewrite poll_loop_exhausted in Hp by assumption; discriminate].
    destruct (Z.lt_ge_cases (progress t0) (split t0)) as [H0|H0];
      [|rewrite poll_loop_synced in Hp by assumption; discriminate].
    destruct (Z.lt_ge_cases sp (progress t0)) as [Hsp|Hsp].
    + rewrite poll_loop_advance in Hp |- * by assumption.
      rewrite trace_prefix, polls_app, (IH _ _ _ Hp). reflexivity.
    + rewrite poll_loop_stall in Hp |- * by assumption.
      rewrite trace_prefix, polls_app, (IH _ _ _ Hp). reflexivity.
Qed.

(** C3. If the monitor is still polling after the snapshots [ts] (so none
    of them had [seen + synced >= split], and the stall budget, whatever is
    left of it, is not used up), then a next snapshot with
    [seen + synced >= split] makes it succeed on that very poll: the poll is
    followed only by stopping the bar and the success message, with no
    further sleep or poll. In particular, with [split = 0] and non-negative
    counters the monitor succeeds on its first poll. *)
Theorem synced_at_first_complete_poll (tag : Tag) :
  (forall ts t rest,
      outcome (waitForFileSynced (map Ok ts) tag) = Pending ->
      split t <= seen t + synced t ->
      Forall (fun t' => seen t' + synced t' < split t') ts
      /\ outcome (waitForFileSynced (map Ok ts ++ Ok t :: rest) tag) = Returned tt
      /\ polls (trace (waitForFileSynced (map Ok ts ++ Ok t :: rest) tag))
         = S (List.length ts)
      /\ trace (waitForFileSynced (map Ok ts ++ Ok t :: rest) tag)
         = trace (waitForFileSynced (map Ok ts) tag)
             ++ [RetrieveTag (uid (last ts tag)); BarStop;
                 ConsoleLog "Data has been synced on Swarm network"])
  /\ (forall t rest,
        split t = 0 -> 0 <= seen t -> 0 <= synced t ->
        waitForFileSynced (Ok t :: rest) tag
        = ([BarStart (split tag) 0; RetrieveTag (uid tag); BarStop;
            ConsoleLog "Data has been synced on Swarm network"],
           Returned tt)).
Proof.
  split.
  - intros ts t rest Hpend Ht. rewrite !waitForFileSynced_unfold in *.
    cbn [outcome trace fst snd] in *.
    assert (Hloop : outcome (poll_loop (map Ok ts) 0 0 tag) = Pending).
    { destruct (outcome (poll_loop (map Ok ts) 0 0 tag)) as [[|]|e|c|];
        (discriminate || reflexivity). }
    destruct (poll_loop_syncs_at_once ts 0 0 tag t rest Hloop Ht) as [Hall Heq].
    rewrite Heq, Hloop. cbn [outcome trace fst snd verdict epilogue].
    split; [exact Hall|]. split; [reflexivity|]. split.
    + cbn [polls]. rewrite !polls_app, (pending_polls _ _ _ _ Hloop). cbn. lia.
    + rewrite app_nil_r, <- app_assoc. reflexivity.
  - intros t rest Hsplit Hseen Hsynced. rewrite waitForFileSynced_unfold.
    rewrite poll_loop_synced by (unfold pollingTrials, progress; lia).
    reflexivity.
Qed.

Lemma synced_at_first_complete_poll_witness :
  outcome (waitForFileSynced
             (map Ok [mkTag 7 500 100 0; mkTag 7 500 150 100] ++ [Ok (mkTag 7 500 250 250)])
             tag0) = Returned tt
  /\ outcome (waitForFileSynced [Ok (mkTag 7 0 0 0)] tag0) = Returned tt.
Proof.
  destruct (synced_at_first_complete_poll tag0) as [Hfirst Hzero]. split.
  - destruct (Hfirst [mkTag 7 500 100 0; mkTag 7 500 150 100] (mkTag 7 500 250 250) [])
      as (_ & Hout & _).
    + reflexivity.
    + cbn. lia.
    + exact Hout.
  - rewrite (Hzero (mkTag 7 0 0 0) []); cbn; (reflexivity || lia).
Defined.

(** C1. On the script of the example (14 stalled polls, an increase, 15
    stalled polls) the monitor logs the timeout and exits with code 1 after
    29 polls: after the poll that showed progress it makes only 14 stalled
    polls, not 15, and the last scripted answer is never asked for. *)
Theorem reset_allows_only_14_stalled_polls :
  outcome (waitForFileSynced reset_script (mkTag 7 1000 0 0)) = Exited 1
  /\ polls (trace (waitForFileSynced reset_script (mkTag 7 1000 0 0))) = 29%nat
  /\ List.length reset_script = 30%nat.
Proof. vm_compute. repeat split. Qed.

Lemma notifications_app tr tail :
  match tail with BarUpdate _ :: _ => False | _ => True end ->
  notifications (tr ++ tail) = notifications tr ++ notifications tail.
Proof.
  intros Htail. induction tr as [|e tr IH]; [reflexivity|].
  destruct e; cbn [app notifications]; try exact IH.
  destruct tr as [|e' tr].
  - cbn [app notifications]. destruct tail as [|[] tail]; easy.
  - cbn [app] in *. destruct e'; rewrite IH; reflexivity.
Qed.

Lemma poll_loop_notifications ts : forall i sp tag,
  incomplete_polls_notified ts (trace (poll_loop (map Ok ts) i sp tag)).
Proof.
  unfold incomplete_polls_notified.
  induction ts as [|t ts IH]; intros i sp tag.
  - destruct (Z.lt_ge_cases i pollingTrials) as [Hi|Hi].
    + now rewrite poll_loop_pending.
    + now rewrite poll_loop_exhausted.
  - cbn [map].
    destruct (Z.lt_ge_cases i pollingTrials) as [Hi|Hi];
      [|now rewrite poll_loop_exhausted].
    destruct (Z.lt_ge_cases (progress t) (split t)) as [Ht|Ht].
    + assert (Hinc : incomplete t = true) by (apply Z.ltb_lt; exact Ht).
      destruct (Z.lt_ge_cases sp (progress t)) as [Hsp|Hsp];
        [rewrite poll_loop_advance by assumption
        |rewrite poll_loop_stall by assumption];
        rewrite trace_prefix; cbn [tick app polls notifications firstn filter];
        rewrite Hinc, IH; reflexivity.
    + assert (Hinc : incomplete t = false) by (apply Z.ltb_ge; exact Ht).
      rewrite poll_loop_synced by assumption.
      cbn [trace fst polls notifications firstn filter]. now rewrite Hinc.
Qed.

(** On answers that all arrive the loop never stops the bar itself and
    never exits the process. *)
Lemma poll_loop_leaves_bar_running ts : forall i sp tag,
  ~ In BarStop (trace (poll_loop (map Ok ts) i sp tag))
  /\ forall c, outcome (poll_loop (map Ok ts) i sp tag) <> Exited c.
Proof.
  induction ts as [|t ts IH]; intros i sp tag; cbn [map].
  - destruct (Z.lt_ge_cases i pollingTrials) as [Hi|Hi].
    + rewrite poll_loop_pending by assumption. split; [intros []|discriminate].
    + rewrite poll_loop_exhausted by assumption. split; [intros []|discriminate].
  - destruct (Z.lt_ge_cases i pollingTrials) as [Hi|Hi];
      [|rewrite poll_loop_exhausted by assumption; split; [intros []|discriminate]].
    destruct (Z.lt_ge_cases (progress t) (split t)) as [Ht|Ht].
    + assert (Hstep : forall i',
                ~ In BarStop (trace (prefix (tick tag t)
                                       (poll_loop (map Ok ts) i' (progress t) t)))
                /\ forall c, outcome (prefix (tick tag t)
                                        (poll_loop (map Ok ts) i' (progress t) t))
                             <> Exited c).
      { intros i'. destruct (IH i' (progress t) t) as [Hno Hex].
        rewrite trace_prefix, outcome_prefix. split; [|exact Hex].
        intros Hin. apply in_app_or in Hin. destruct Hin as [Hin|Hin]; [|tauto].
        cbn in Hin. intuition discriminate. }
      destruct (Z.lt_ge_cases sp (progress t)) as [Hsp|Hsp];
        [rewrite poll_loop_advance by assumption
        |rewrite poll_loop_stall by assumption]; apply Hstep.
    + rewrite poll_loop_synced by assumption. split; [|discriminate].
      intros [H|[]]. discriminate.
Qed.

(** C9, as the code has it. The progress bar is started with
    [(split, 0)] before the first poll; after that it is told
    [(progress, split)] on exactly those polls that do not complete the
    replication, in order. The poll on which replication completes leaves
    the loop before the bar is touched. When the loop has ended, by
    completion or by timeout, the bar is stopped, once, right before the
    closing message; while the monitor is still polling it is not. *)
Theorem observer_notified_on_incomplete_polls (tag : Tag) (ts : list Tag) :
  incomplete_polls_notified ts (trace (waitForFileSynced (map Ok ts) tag))
  /\ hd_error (trace (waitForFileSynced (map Ok ts) tag))
     = Some (BarStart (split tag) 0)
  /\ match outcome (waitForFileSynced (map Ok ts) tag) with
     | Returned _ =>
         exists pre,
           trace (waitForFileSynced (map Ok ts) tag)
           = pre ++ [BarStop; ConsoleLog "Data has been synced on Swarm network"]
           /\ ~ In BarStop pre
     | Exited _ =>
         exists pre,
           trace (waitForFileSynced (map Ok ts) tag)
           = pre ++ [BarStop; ConsoleError "Data syncing timeout"]
           /\ ~ In BarStop pre
     | _ => ~ In BarStop (trace (waitForFileSynced (map Ok ts) tag))
     end.
Proof.
  rewrite waitForFileSynced_unfold. cbn [trace outcome fst snd].
  split; [|split; [reflexivity|]].
  - pose proof (poll_loop_notifications ts 0 0 tag) as H.
    unfold incomplete_polls_notified in *.
    cbn [polls notifications]. rewrite polls_app, notifications_app.
    + assert (E : forall o, polls (epilogue o) = O /\ notifications (epilogue o) = [])
        by (intros [[|]|?|?|]; now split).
      destruct (E (outcome (poll_loop (map Ok ts) 0 0 tag))) as [-> ->].
      now rewrite Nat.add_0_r, app_nil_r.
    + destruct (outcome (poll_loop (map Ok ts) 0 0 tag)) as [[|]|?|?|]; exact I.
  - destruct (poll_loop_leaves_bar_running ts 0 0 tag) as [Hno Hex].
    assert (Hpre : ~ In BarStop (BarStart (split tag) 0
                                   :: trace (poll_loop (map Ok ts) 0 0 tag))).
    { intros [H|H]; [discriminate|tauto]. }
    destruct (outcome (poll_loop (map Ok ts) 0 0 tag)) as [[|]|e|c|];
      cbn [verdict epilogue].
    + eexists (_ :: _). split; [reflexivity|exact Hpre].
    + eexists (_ :: _). split; [reflexivity|exact Hpre].
    + now rewrite app_nil_r.
    + now destruct (Hex c).
    + now rewrite app_nil_r.
Qed.

(** C9 fails on a run whose only poll finds the upload complete: the tag
    is polled once and the bar is told nothing. *)
Lemma completing_poll_not_notified :
  ~ every_poll_notified [mkTag 7 10 4 6]
      (trace (waitForFileSynced [Ok (mkTag 7 10 4 6)] (mkTag 7 10 0 0))).
Proof. vm_compute. discriminate. Qed.

(** ** Selecting a postage batch *)

Lemma eligible_spec (b : PostageBatch) :
  eligible b = true <-> 0 < batchTTL b /\ usable b = true.
Proof.
  unfold eligible. rewrite andb_true_iff, Z.gtb_lt. reflexivity.
Qed.

(** The head of a filtered list is the first element that passes. *)
Lemma hd_filter_Some {A} (f : A -> bool) (l : list A) (a : A) :
  hd_error (filter f l) = Some a <->
  exists before after,
    l = before ++ a :: after /\ f a = true
    /\ forall x, In x before -> f x = false.
Proof.
  induction l as [|x l IH]; cbn [filter].
  - split; [discriminate|]. intros ([|? ?] & after & H & _); discriminate.
  - destruct (f x) eqn:Hx.
    + cbn [hd_error]. split.
      * intros [= <-]. exists [], l. repeat split; [assumption|intros ? []].
      * intros ([|y before] & after & Hl & Ha & Hb).
        -- injection Hl as <- _. reflexivity.
        -- injection Hl as <- _. rewrite (Hb x) in Hx by now left. discriminate.
    + rewrite IH. split.
      * intros (before & after & -> & Ha & Hb).
        exists (x :: before), after. repeat split; [assumption|].
        intros y [<-|Hy]; auto.
      * intros ([|y before] & after & Hl & Ha & Hb).
        -- injection Hl as -> _. congruence.
        -- injection Hl as _ ->. exists before, after.
           repeat split; [assumption|]. intros z Hz. apply Hb. now right.
Qed.

Lemma hd_filter_None {A} (f : A -> bool) (l : list A) :
  hd_error (filter f l) = None <-> forall x, In x l -> f x = false.
Proof.
  induction l as [|x l IH]; cbn [filter].
  - split; [intros _ ? []|reflexivity].
  - destruct (f x) eqn:Hx.
    + split; [discriminate|]. intros H. rewrite (H x) in Hx by now left.
      discriminate.
    + rewrite IH. split.
      * intros H y [<-|Hy]; auto.
      * intros H y Hy. apply H. now right.
Qed.

Lemma select_batch_Returned_iff (batches : list PostageBatch) (b : PostageBatch) :
  select_batch batches = ([], Returned b) <->
  exists before after,
    batches = before ++ b :: after
    /\ (0 < batchTTL b /\ usable b = true)
    /\ forall x, In x before -> ~ (0 < batchTTL x /\ usable x = true).
Proof.
  unfold select_batch. setoid_rewrite <- eligible_spec.
  setoid_rewrite not_true_iff_false. rewrite <- hd_filter_Some.
  destruct (hd_error (filter eligible batches)); unfold throw; cbn;
    split; congruence.
Qed.

Lemma select_batch_Threw_iff (batches : list PostageBatch) :
  select_batch batches = ([], Threw "No usable postage batch found") <->
  forall x, In x batches -> ~ (0 < batchTTL x /\ usable x = true).
Proof.
  unfold select_batch. setoid_rewrite <- eligible_spec.
  setoid_rewrite not_true_iff_false. rewrite <- hd_filter_None.
  destruct (hd_error (filter eligible batches)); unfold throw; cbn;
    split; congruence.
Qed.

(** C4. Selection has no effect on the outside world. It returns a batch
    exactly when that batch is the first of the list with [batchTTL > 0]
    and [usable] set, and it throws 'No usable postage batch found' exactly
    when no batch of the list has both. *)
Theorem select_batch_first_eligible (batches : list PostageBatch) :
  (forall b,
      select_batch batches = ([], Returned b) <->
      exists before after,
        batches = before ++ b :: after
        /\ (0 < batchTTL b /\ usable b = true)
        /\ forall x, In x before -> ~ (0 < batchTTL x /\ usable x = true))
  /\ (select_batch batches = ([], Threw "No usable postage batch found") <->
      forall x, In x batches -> ~ (0 < batchTTL x /\ usable x = true)).
Proof.
  split.
  - intros b. apply select_batch_Returned_iff.
  - apply select_batch_Threw_iff.
Qed.

(** ** Picking the newest artifact *)

Section Sorting.
Context {A : Type} (cmp : A -> A -> Z).

Lemma insert_sorted_perm (a : A) (l : list A) :
  Permutation (a :: l) (insert_sorted cmp a l).
Proof.
  induction l as [|b l IH]; cbn [insert_sorted]; [reflexivity|].
  destruct (cmp a b <=? 0); [reflexivity|].
  rewrite perm_swap. now constructor.
Qed.

Lemma sort_perm (l : list A) : Permutation l (sort cmp l).
Proof.
  induction l as [|a l IH]; cbn [sort]; [constructor|].
  rewrite <- insert_sorted_perm. now constructor.
Qed.

Lemma sort_nil (l : list A) : sort cmp l = [] -> l = [].
Proof.
  intros H. apply Permutation_nil. rewrite <- H. symmetry. apply sort_perm.
Qed.
End Sorting.

Lemma insert_sorted_newest_first a l :
  Sorted not_older l -> Sorted not_older (insert_sorted newest_first a l).
Proof.
  induction 1 as [|b l Hl IH Hb]; cbn [insert_sorted].
  - repeat constructor.
  - unfold newest_first at 1. destruct (Z.leb_spec (created_at b - created_at a) 0).
    + constructor; [now constructor|]. constructor. unfold not_older. lia.
    + constructor; [exact IH|].
      destruct Hb as [|c l Hc]; cbn [insert_sorted].
      * constructor. unfold not_older. lia.
      * unfold newest_first at 1.
        destruct (created_at c - created_at a <=? 0); constructor;
          [unfold not_older; lia|exact Hc].
Qed.

Lemma sort_newest_first_sorted l : Sorted not_older (sort newest_first l).
Proof.
  induction l as [|a l IH]; cbn [sort]; [constructor|].
  now apply insert_sorted_newest_first.
Qed.

(** The head of the sorted list is the first artifact of the original list
    that no other artifact is newer than. *)
Lemma sort_newest_first_head l : forall a s,
  sort newest_first l = a :: s ->
  exists before after,
    l = before ++ a :: after
    /\ (forall x, In x before -> created_at x < created_at a)
    /\ (forall x, In x after -> created_at x <= created_at a).
Proof.
  induction l as [|a0 l IH]; intros a s Hs; [discriminate|].
  cbn [sort] in Hs. destruct (sort newest_first l) as [|b s'] eqn:Hl.
  - apply sort_nil in Hl. subst l. injection Hs as <- _.
    exists [], []. repeat split; intros ? [].
  - destruct (IH b s' eq_refl) as (before & after & -> & Hb & Ha).
    cbn [insert_sorted] in Hs. unfold newest_first at 1 in Hs.
    destruct (Z.leb_spec (created_at b - created_at a0) 0) as [Hle|Hgt].
    + injection Hs as <- _. exists [], (before ++ b :: after).
      repeat split; [intros ? []|]. intros x Hx.
      apply in_app_or in Hx. destruct Hx as [Hx|[<-|Hx]].
      * specialize (Hb x Hx). lia.
      * lia.
      * specialize (Ha x Hx). lia.
    + injection Hs as <- _. exists (a0 :: before), after.
      repeat split; [|exact Ha]. intros x [<-|Hx]; [lia|auto].
Qed.

(** C5. From a non-empty listing the function returns the [id] of an
    artifact whose creation time no other artifact of the listing exceeds
    (of several such, the one listed first); it throws 'No artifacts
    found...' exactly when the listing is empty. *)
Theorem pick_newest_max_created_at (build_name : option string) (l : list Artifact) :
  (pick_newest build_name (Some l) = ([], Threw (no_artifacts_message build_name))
   <-> l = [])
  /\ (l <> [] ->
      exists before a after,
        l = before ++ a :: after
        /\ pick_newest build_name (Some l) = ([], Returned (Some (id a)))
        /\ (forall x, In x l -> created_at x <= created_at a)
        /\ (forall x, In x before -> created_at x < created_at a)).
Proof.
  split.
  - destruct l as [|a l]; cbn; [now split|]. split; discriminate.
  - intros Hne. destruct l as [|a0 l]; [congruence|].
    unfold pick_newest.
    destruct (sort newest_first (a0 :: l)) as [|a s] eqn:Hs;
      [apply sort_nil in Hs; discriminate|].
    destruct (sort_newest_first_head _ _ _ Hs) as (before & after & Hl & Hb & Ha).
    exists before, a, after. rewrite Hl. repeat split; [|exact Hb].
    intros x Hx. apply in_app_or in Hx. destruct Hx as [Hx|[<-|Hx]].
    + specialize (Hb x Hx). lia.
    + lia.
    + auto.
Qed.

Lemma pick_newest_max_created_at_witness :
  listing <> []
  /\ exists before a after,
       listing = before ++ a :: after
       /\ pick_newest None (Some listing) = ([], Returned (Some (id a)))
       /\ (forall x, In x listing -> created_at x <= created_at a)
       /\ (forall x, In x before -> created_at x < created_at a).
Proof.
  assert (H : listing <> []) by discriminate.
  split; [exact H|].
  exact (proj2 (pick_newest_max_created_at None listing) H).
Defined.

Example pick_newest_first_of_ties :
  pick_newest None (Some listing) = ([], Returned (Some 12)).
Proof. reflexivity. Qed.

(** ** Walking a computation event by event *)

Section Traces.
Context (P : Event -> Prop).

Lemma Forall_trace_bind {A B} (m : M A) (k : A -> M B) :
  Forall P (trace m) ->
  (forall a, outcome m = Returned a -> Forall P (trace (k a))) ->
  Forall P (trace (bind m k)).
Proof.
  destruct m as [tr [a|e|c|]]; cbn; intros Hm Hk; try exact Hm.
  apply Forall_app. split; [exact Hm|]. now apply Hk.
Qed.

Lemma Forall_trace_await {A} (e : Event) (r : Res A) :
  P e -> Forall P (trace (await e r)).
Proof. intros He. cbn. now constructor. Qed.

Lemma Forall_trace_emit (e : Event) : P e -> Forall P (trace (emit e)).
Proof. intros He. cbn. now constructor. Qed.

Lemma Forall_trace_ret {A} (a : A) : Forall P (trace (ret a : M A)).
Proof. constructor. Qed.

Lemma Forall_trace_throw {A} (msg : Error) : Forall P (trace (throw msg : M A)).
Proof. constructor. Qed.

Lemma Forall_trace_exit {A} (c : Z) : Forall P (trace (process_exit c : M A)).
Proof. constructor. Qed.

Lemma Forall_trace_try_catch {A} (m h : M A) :
  Forall P (trace m) -> Forall P (trace h) -> Forall P (trace (try_catch m h)).
Proof.
  destruct m as [tr [a|e|c|]]; cbn; intros Hm Hh; try exact Hm.
  apply Forall_app. now split.
Qed.

Lemma Forall_trace_select_batch batches : Forall P (trace (select_batch batches)).
Proof.
  unfold select_batch. destruct (hd_error (filter eligible batches)); constructor.
Qed.

Lemma Forall_trace_pick_newest build_name listing :
  Forall P (trace (pick_newest build_name listing)).
Proof. destruct listing as [[|a l]|]; constructor. Qed.

(** The monitor only polls the tag, drives the bar, sleeps and logs. *)
Hypothesis P_RetrieveTag : forall u, P (RetrieveTag u).
Hypothesis P_BarStart : forall total v, P (BarStart total v).
Hypothesis P_BarSetTotal : forall total, P (BarSetTotal total).
Hypothesis P_BarUpdate : forall v, P (BarUpdate v).
Hypothesis P_BarStop : P BarStop.
Hypothesis P_SleepMillis : forall n, P (SleepMillis n).
Hypothesis P_ConsoleLog : forall msg, P (ConsoleLog msg).
Hypothesis P_ConsoleError : forall msg, P (ConsoleError msg).

Lemma Forall_trace_poll_loop rs : forall i sp tag,
  Forall P (trace (poll_loop rs i sp tag)).
Proof.
  induction rs as [|r rs IH]; intros i sp tag; cbn [poll_loop];
    destruct (i <? pollingTrials); try constructor.
  apply Forall_trace_bind; [apply Forall_trace_await, P_RetrieveTag|].
  intros t _. destruct (seen t + synced t >=? split t); [constructor|].
  repeat (apply Forall_trace_bind;
          [apply Forall_trace_emit; auto|intros ? _]).
  apply IH.
Qed.

Lemma Forall_trace_waitForFileSynced rs tag :
  Forall P (trace (waitForFileSynced rs tag)).
Proof.
  rewrite waitForFileSynced_unfold. cbn [trace fst].
  constructor; [apply P_BarStart|]. apply Forall_app. split.
  - apply Forall_trace_poll_loop.
  - destruct (outcome (poll_loop rs 0 0 tag)) as [[|]|?|?|];
      repeat constructor; auto.
Qed.
End Traces.

(** ** The upload configuration *)

(** [walk] takes a goal [Forall P (trace m)] apart along the binds of [m],
    leaving one goal [P e] per event and one goal per branch. *)
Ltac walk :=
  repeat first
    [ apply Forall_trace_waitForFileSynced; intros
    | apply Forall_trace_select_batch
    | apply Forall_trace_pick_newest
    | apply Forall_trace_await
    | apply Forall_trace_emit
    | apply Forall_trace_ret
    | apply Forall_trace_throw
    | apply Forall_trace_exit
    | apply Forall_trace_try_catch
    | apply Forall_trace_bind; [|intros ? ?] ].

Lemma upload_fixed_manifest_configuration (env : Env) :
  Forall fixed_manifest_configuration (trace (upload env)).
Proof.
  unfold upload, updateFeedAndPrint, writeFeed. walk; cbn; auto 10.
Qed.

(** C10. In every run, whatever the environment holds, each upload names
    'index.html' as entry document and '404.html' as error document, pins,
    does not encrypt, is deferred, and leaves the redundancy level unset. *)
Theorem upload_uses_fixed_manifest_configuration (env : Env) :
  Forall fixed_manifest_configuration (trace (main env)).
Proof.
  unfold main, getArtifactId, downloadAndExtractArtifact. walk; cbn; auto 10.
  match goal with |- context [if ?b then _ else _] => destruct b end;
    walk; exact I.
Qed.

(** ** The pipeline *)

(** [aborted] settles a branch of [main_shape] in which the run ended
    before it looked for the entry point. *)
Ltac aborted :=
  right; right; cbn; split; [repeat constructor|];
  split; [intros Hin; cbn in Hin; intuition discriminate|];
  (left; eexists; reflexivity) || (right; reflexivity).

(** A run of [main] either reaches [upload], or ends at the missing entry
    point, or ends earlier; up to [upload] the Bee node is left alone. *)
Lemma main_shape (env : Env) :
  (exists tr d,
      main env = prefix tr (upload env ;; ret "done")
      /\ Forall quiet tr
      /\ fs_stat_isDirectory env index_html = Ok d)
  \/ (exists tr e,
        main env = (tr ++ no_index_html, Exited 1)
        /\ Forall quiet tr
        /\ ~ In (FsStat index_html) tr
        /\ fs_stat_isDirectory env index_html = Fail e)
  \/ (Forall quiet (trace (main env))
      /\ ~ In (FsStat index_html) (trace (main env))
      /\ ((exists e, outcome (main env) = Threw e) \/ outcome (main env) = Exited 1)).
Proof.
  unfold main, getArtifactId, downloadAndExtractArtifact.
  remember (upload env) as u eqn:Hu. clear Hu.
  destruct (fs_rm env) as [[]|?]; [|aborted].
  destruct (list_artifacts env) as [[[|a l]|]|?]; [aborted| |aborted|aborted].
  cbn -[index_html].
  match goal with
  | |- context [artifact_zip_url env ?x] =>
      destruct (artifact_zip_url env x) as [url|?]; [|aborted]
  end.
  cbn -[index_html].
  destruct (download_and_extract env url) as [[]|?]; [|aborted].
  cbn -[index_html].
  destruct (fs_stat_isDirectory env OUT_DIR) as [[|]|?]; [|aborted|aborted].
  destruct (fs_stat_isDirectory env index_html) as [d|e].
  - left. eexists [_; _; _; _; _; _; _; _], d.
    split; [destruct u as [tr [[]|?|?|]]; cbn; reflexivity|].
    split; [repeat constructor|reflexivity].
  - right; left. eexists [_; _; _; _; _; _; _], e. cbn.
    split; [reflexivity|]. split; [repeat constructor|].
    split; [|reflexivity]. intros Hin; cbn in Hin; intuition discriminate.
Qed.

Lemma quiet_not_In (tr : list Event) (e : Event) :
  Forall quiet tr -> bee_event e = true -> ~ In e tr.
Proof.
  intros Hq He Hin. rewrite Forall_forall in Hq. specialize (Hq e Hin).
  unfold quiet in Hq. congruence.
Qed.

Lemma never_returned {A} (o : Outcome A) :
  (exists e, o = Threw e) \/ o = Exited 1 -> forall r, o <> Returned r.
Proof. intros [[e ->]| ->] r; discriminate. Qed.

(** C6. When [fs.stat] of './artifact/index.html' fails, the run makes no
    call to the Bee node at all (no upload, no feed manifest, no feed
    entry) and does not return; if it gets as far as looking for the file,
    it ends by logging 'No index.html in ./artifact' and exiting with
    code 1. *)
Theorem missing_index_html_aborts (env : Env) (e : Error) :
  fs_stat_isDirectory env index_html = Fail e ->
  Forall quiet (trace (main env))
  /\ (forall r, outcome (main env) <> Returned r)
  /\ (In (FsStat index_html) (trace (main env)) ->
      outcome (main env) = Exited 1
      /\ exists tr, trace (main env) = tr ++ no_index_html).
Proof.
  intros Hstat.
  destruct (main_shape env)
    as [(tr & d & _ & _ & Hd)|[(tr & e' & -> & Hq & _ & _)|(Hq & Hnot & Hout)]].
  - congruence.
  - cbn [trace outcome fst snd]. split.
    + apply Forall_app. split; [exact Hq|repeat constructor].
    + split; [discriminate|]. intros _. split; [reflexivity|now exists tr].
  - split; [exact Hq|]. split; [now apply never_returned|]. tauto.
Qed.

(** The run in which nothing goes wrong: it uploads with the second batch,
    polls three times, writes the feed and returns. *)
Example main_happy_path :
  outcome (main (sample_env (Ok false) sample_batches)) = Returned "done"
  /\ polls (trace (main (sample_env (Ok false) sample_batches))) = 3%nat
  /\ In (UploadFilesFromDirectory "b1" OUT_DIR
           (mkOptions "index.html" "404.html" (Some 7) true false true None))
        (trace (main (sample_env (Ok false) sample_batches)))
  /\ In (FeedWriterUpload (mkWriter "sequence" "site" "key") "b1" "c0ffee")
        (trace (main (sample_env (Ok false) sample_batches))).
Proof. vm_compute. intuition. Qed.

Lemma missing_index_html_aborts_witness :
  fs_stat_isDirectory (sample_env (Fail "ENOENT") sample_batches) index_html
  = Fail "ENOENT"
  /\ Forall quiet (trace (main (sample_env (Fail "ENOENT") sample_batches)))
  /\ outcome (main (sample_env (Fail "ENOENT") sample_batches)) = Exited 1.
Proof.
  assert (H : fs_stat_isDirectory (sample_env (Fail "ENOENT") sample_batches) index_html
              = Fail "ENOENT") by reflexivity.
  split; [exact H|].
  destruct (missing_index_html_aborts _ _ H) as (Hq & _ & Hexit).
  split; [exact Hq|]. apply Hexit. vm_compute. intuition.
Defined.

(** ** No upload without a selected batch *)

Lemma await_returned {A} (e : Event) (r : Res A) (a : A) :
  outcome (await e r) = Returned a -> r = Ok a.
Proof. destruct r; cbn; congruence. Qed.

Lemma select_batch_returned batches b :
  outcome (select_batch batches) = Returned b ->
  select_batch batches = ([], Returned b).
Proof.
  unfold select_batch. destruct (hd_error (filter eligible batches)); cbn;
    congruence.
Qed.

Lemma hd_trace_bind {A B} (m : M A) (k : A -> M B) (e : Event) :
  hd_error (trace m) = Some e -> hd_error (trace (bind m k)) = Some e.
Proof.
  destruct m as [[|e' tr] [a|?|?|]]; cbn; congruence.
Qed.

Lemma upload_starts_with_listing (env : Env) :
  exists rest, trace (upload env ;; ret "done") = GetAllPostageBatch :: rest.
Proof.
  assert (H : hd_error (trace (upload env ;; ret "done")) = Some GetAllPostageBatch)
    by (unfold upload; do 2 apply hd_trace_bind; reflexivity).
  destruct (trace (upload env ;; ret "done")) as [|e rest]; [discriminate|].
  injection H as ->. now exists rest.
Qed.

Lemma upload_without_eligible_batch (env : Env) batches :
  getAllPostageBatch env = Ok batches ->
  (forall b, In b batches -> ~ (0 < batchTTL b /\ usable b = true)) ->
  upload env = ([GetAllPostageBatch], Threw "No usable postage batch found").
Proof.
  intros Hlist Hnone. unfold upload. rewrite Hlist.
  apply select_batch_Threw_iff in Hnone.
  unfold await. rewrite bind_returned, Hnone. reflexivity.
Qed.

Lemma uploads_selected (env : Env) : Forall (selected_for env) (trace (main env)).
Proof.
  unfold main, getArtifactId, downloadAndExtractArtifact. walk;
    try (cbn; exact I).
  - match goal with |- context [if ?b then _ else _] => destruct b end;
      walk; exact I.
  - cbn.
    match goal with
    | Ha : outcome (await GetAllPostageBatch _) = Returned ?a,
      Hb : outcome (select_batch ?a) = Returned ?b |- _ =>
        exists a, b; repeat split;
        [exact (await_returned _ _ _ Ha)|exact (select_batch_returned _ _ Hb)]
    end.
Qed.

(** C7. When the node's batch list has no batch with [batchTTL > 0] and
    [usable] set, [upload] throws 'No usable postage batch found' right
    after the listing; the run then creates no tag, uploads nothing, asks
    the node for nothing else, and does not return. And in every run, an
    upload event comes after the listing of the batches, the selection on
    that list succeeded, and the upload uses the selected batch. *)
Theorem no_upload_without_selected_batch (env : Env) :
  (forall batches,
      getAllPostageBatch env = Ok batches ->
      (forall b, In b batches -> ~ (0 < batchTTL b /\ usable b = true)) ->
      upload env = ([GetAllPostageBatch], Threw "No usable postage batch found")
      /\ Forall (fun e => past_selection e = false) (trace (main env))
      /\ (forall r, outcome (main env) <> Returned r)
      /\ (In GetAllPostageBatch (trace (main env)) ->
          outcome (main env) = Threw "No usable postage batch found"))
  /\ (forall b dir options,
        In (UploadFilesFromDirectory b dir options) (trace (main env)) ->
        exists batches batch before after,
          getAllPostageBatch env = Ok batches
          /\ select_batch batches = ([], Returned batch)
          /\ b = batchID batch
          /\ trace (main env) = before ++ GetAllPostageBatch :: after
          /\ In (UploadFilesFromDirectory b dir options) after).
Proof.
  assert (Hweaker : forall tr, Forall quiet tr ->
                               Forall (fun e => past_selection e = false) tr).
  { intros tr. apply Forall_impl. intros [] H; (reflexivity || discriminate H). }
  split.
  - intros batches Hlist Hnone.
    pose proof (upload_without_eligible_batch env batches Hlist Hnone) as Hup.
    split; [exact Hup|].
    destruct (main_shape env)
      as [(tr & d & -> & Hq & _)|[(tr & e' & -> & Hq & _ & _)|(Hq & _ & Hout)]].
    + rewrite Hup. cbn. split.
      * apply Forall_app. split; [now apply Hweaker|repeat constructor].
      * split; [discriminate|reflexivity].
    + cbn [trace outcome fst snd]. split.
      * apply Hweaker, Forall_app. split; [exact Hq|repeat constructor].
      * split; [discriminate|]. intros Hin. exfalso.
        apply in_app_or in Hin. destruct Hin as [Hin|Hin].
        -- now apply (quiet_not_In tr GetAllPostageBatch Hq).
        -- cbn in Hin. intuition discriminate.
    + split; [now apply Hweaker|]. split; [now apply never_returned|].
      intros Hin. exfalso. now apply (quiet_not_In _ GetAllPostageBatch Hq).
  - intros b dir options Hin.
    pose proof (uploads_selected env) as Hsel. rewrite Forall_forall in Hsel.
    destruct (Hsel _ Hin) as (batches & batch & Hlist & Hpick & ->).
    exists batches, batch.
    destruct (main_shape env)
      as [(tr & d & Hmain & Hq & _)|[(tr & e' & Hmain & Hq & _ & _)|(Hq & _ & _)]].
    + destruct (upload_starts_with_listing env) as [rest Hrest].
      rewrite Hmain, trace_prefix, Hrest in Hin |- *.
      exists tr, rest. repeat split; try assumption.
      apply in_app_or in Hin. destruct Hin as [Hin|[Hin|Hin]].
      * now apply (quiet_not_In tr _ Hq) in Hin.
      * discriminate.
      * exact Hin.
    + exfalso. rewrite Hmain in Hin. cbn [trace fst] in Hin.
      apply in_app_or in Hin. destruct Hin as [Hin|Hin].
      * now apply (quiet_not_In tr _ Hq) in Hin.
      * cbn in Hin. intuition discriminate.
    + exfalso. now apply (quiet_not_In _ _ Hq) in Hin.
Qed.

Lemma no_upload_without_selected_batch_witness :
  upload (sample_env (Ok false) [mkBatch "b0" 0 true; mkBatch "b1" 100 false])
  = ([GetAllPostageBatch], Threw "No usable postage batch found")
  /\ outcome (main (sample_env (Ok false) [mkBatch "b0" 0 true; mkBatch "b1" 100 false]))
     = Threw "No usable postage batch found"
  /\ exists batch,
       select_batch sample_batches = ([], Returned batch) /\ "b1" = batchID batch.
Proof.
  destruct (no_upload_without_selected_batch
              (sample_env (Ok false) [mkBatch "b0" 0 true; mkBatch "b1" 100 false]))
    as [Hnone _].
  destruct (Hnone [mkBatch "b0" 0 true; mkBatch "b1" 100 false] eq_refl)
    as (Hup & _ & _ & Hout).
  { intros b [<-|[<-|[]]]; cbn; intros [H1 H2]; (lia || discriminate). }
  split; [exact Hup|]. split; [apply Hout; vm_compute; intuition|].
  destruct (no_upload_without_selected_batch (sample_env (Ok false) sample_batches))
    as [_ Hsome].
  destruct (Hsome "b1" OUT_DIR
              (mkOptions "index.html" "404.html" (Some 7) true false true None))
    as (batches & batch & _ & _ & Hlist & Hpick & Hid & _).
  { vm_compute. intuition. }
  injection Hlist as <-. now exists batch.
Defined.

(** * Further properties *)

(** ** The replication monitor *)

Lemma slept_app (tr1 tr2 : list Event) : slept (tr1 ++ tr2) = slept tr1 + slept tr2.
Proof.
  induction tr1 as [|e tr1 IH]; [reflexivity|].
  destruct e; cbn [app slept]; rewrite IH; lia.
Qed.

Lemma polled_uids_app (tr1 tr2 : list Event) :
  polled_uids (tr1 ++ tr2) = polled_uids tr1 ++ polled_uids tr2.
Proof.
  induction tr1 as [|e tr1 IH]; [reflexivity|].
  destruct e; cbn [app polled_uids]; rewrite IH; reflexivity.
Qed.

(** The loop proper never exits the process. *)
Lemma poll_loop_outcome rs : forall i sp tag,
  (exists b, outcome (poll_loop rs i sp tag) = Returned b)
  \/ (exists e, outcome (poll_loop rs i sp tag) = Threw e)
  \/ outcome (poll_loop rs i sp tag) = Pending.
Proof.
  induction rs as [|r rs IH]; intros i sp tag.
  - destruct (Z.lt_ge_cases i pollingTrials) as [Hi|Hi].
    + rewrite poll_loop_pending by assumption. now right; right.
    + rewrite poll_loop_exhausted by assumption. left. now exists false.
  - destruct (Z.lt_ge_cases i pollingTrials) as [Hi|Hi];
      [|rewrite poll_loop_exhausted by assumption; left; now exists false].
    destruct r as [t|e];
      [|rewrite poll_loop_rejected by assumption; right; left; now exists e].
    destruct (Z.lt_ge_cases (progress t) (split t)) as [Ht|Ht];
      [|rewrite poll_loop_synced by assumption; left; now exists true].
    destruct (Z.lt_ge_cases sp (progress t)) as [Hsp|Hsp].
    + rewrite poll_loop_advance by assumption. rewrite outcome_prefix. apply IH.
    + rewrite poll_loop_stall by assumption. rewrite outcome_prefix. apply IH.
Qed.

(** Case analysis on the next answer of a loop that has trials left. *)
Lemma poll_loop_cases t rest i sp tag :
  i < pollingTrials ->
  (split t <= progress t
   /\ poll_loop (Ok t :: rest) i sp tag = ([RetrieveTag (uid tag)], Returned true))
  \/ (progress t < split t /\ sp < progress t
      /\ poll_loop (Ok t :: rest) i sp tag
         = prefix (tick tag t) (poll_loop rest 1 (progress t) t))
  \/ (progress t < split t /\ progress t <= sp
      /\ poll_loop (Ok t :: rest) i sp tag
         = prefix (tick tag t) (poll_loop rest (i + 1) (progress t) t)).
Proof.
  intros Hi.
  destruct (Z.lt_ge_cases (progress t) (split t)) as [Ht|Ht];
    [|left; split; [exact Ht|now apply poll_loop_synced]].
  destruct (Z.lt_ge_cases sp (progress t)) as [Hsp|Hsp].
  - right; left. repeat split; try assumption. now apply poll_loop_advance.
  - right; right. repeat split; try assumption. now apply poll_loop_stall.
Qed.

(** On a script of answers that all arrive, the loop returns or waits. *)
Lemma poll_loop_ok_outcome ts : forall i sp tag,
  (exists b, outcome (poll_loop (map Ok ts) i sp tag) = Returned b)
  \/ outcome (poll_loop (map Ok ts) i sp tag) = Pending.
Proof.
  induction ts as [|t ts IH]; intros i sp tag; cbn [map].
  - destruct (Z.lt_ge_cases i pollingTrials) as [Hi|Hi].
    + rewrite poll_loop_pending by assumption. now right.
    + rewrite poll_loop_exhausted by assumption. left. now exists false.
  - destruct (Z.lt_ge_cases i pollingTrials) as [Hi|Hi];
      [|rewrite poll_loop_exhausted by assumption; left; now exists false].
    destruct (poll_loop_cases t (map Ok ts) i sp tag Hi)
      as [[_ ->]|[(_ & _ & ->)|(_ & _ & ->)]];
      [left; now exists true| |]; rewrite outcome_prefix; apply IH.
Qed.

Lemma poll_loop_rejection ts : forall i sp tag e rest,
  outcome (poll_loop (map Ok ts) i sp tag) = Pending ->
  poll_loop (map Ok ts ++ Fail e :: rest) i sp tag
  = (trace (poll_loop (map Ok ts) i sp tag) ++ [RetrieveTag (uid (last ts tag))],
     Threw e).
Proof.
  induction ts as [|t ts IH]; intros i sp tag e rest Hpend; cbn [map app] in *.
  - destruct (Z.lt_ge_cases i pollingTrials) as [Hi|Hi].
    + now rewrite poll_loop_rejected, poll_loop_pending.
    + rewrite poll_loop_exhausted in Hpend by assumption. discriminate.
  - rewrite last_cons.
    destruct (Z.lt_ge_cases i pollingTrials) as [Hi|Hi];
      [|rewrite poll_loop_exhausted in Hpend by assumption; discriminate].
    destruct (poll_loop_cases t (map Ok ts) i sp tag Hi)
      as [[Ht Heq]|[(Ht & Hsp & Heq)|(Ht & Hsp & Heq)]];
      rewrite Heq in Hpend |- *; [discriminate| |].
    + rewrite poll_loop_advance by assumption.
      rewrite (IH _ _ _ e rest Hpend). unfold prefix, tick; cbn. reflexivity.
    + rewrite poll_loop_stall by assumption.
      rewrite (IH _ _ _ e rest Hpend). unfold prefix, tick; cbn. reflexivity.
Qed.

Lemma pending_loop rs tag :
  outcome (waitForFileSynced rs tag) = Pending ->
  outcome (poll_loop rs 0 0 tag) = Pending.
Proof.
  rewrite waitForFileSynced_unfold. cbn [outcome snd].
  destruct (outcome (poll_loop rs 0 0 tag)) as [[|]|?|?|];
    (discriminate || reflexivity).
Qed.

(** X1. If a poll is rejected while the monitor is still polling, the
    monitor throws that rejection at once: the rejected poll is its last
    event, the bar is never stopped and the process does not exit. *)
Theorem rejected_poll_is_thrown (tag : Tag) (ts : list Tag) (e : Error)
    (rest : list (Res Tag)) :
  outcome (waitForFileSynced (map Ok ts) tag) = Pending ->
  outcome (waitForFileSynced (map Ok ts ++ Fail e :: rest) tag) = Threw e
  /\ trace (waitForFileSynced (map Ok ts ++ Fail e :: rest) tag)
     = trace (waitForFileSynced (map Ok ts) tag) ++ [RetrieveTag (uid (last ts tag))]
  /\ ~ In BarStop (trace (waitForFileSynced (map Ok ts ++ Fail e :: rest) tag)).
Proof.
  intros Hpend. apply pending_loop in Hpend.
  rewrite !waitForFileSynced_unfold, (poll_loop_rejection ts 0 0 tag e rest Hpend), Hpend.
  cbn [outcome trace fst snd verdict epilogue]. rewrite !app_nil_r.
  split; [reflexivity|]. split; [reflexivity|].
  intros [H|H]; [discriminate|]. apply in_app_or in H. destruct H as [H|[H|[]]].
  - pose proof (Forall_trace_poll_loop (fun ev => ev <> BarStop)) as HF.
    specialize (HF ltac:(discriminate) ltac:(discriminate) ltac:(discriminate)
                   ltac:(discriminate) (map Ok ts) 0 0 tag).
    rewrite Forall_forall in HF. now apply (HF _ H).
  - discriminate.
Qed.

Lemma rejected_poll_is_thrown_witness :
  outcome (waitForFileSynced (map Ok [mkTag 7 500 100 0] ++ [Fail "ECONNRESET"]) tag0)
  = Threw "ECONNRESET".
Proof.
  apply (rejected_poll_is_thrown tag0 [mkTag 7 500 100 0] "ECONNRESET" []).
  reflexivity.
Defined.

Lemma increases_stall t ts sp :
  progress t <= sp -> increases sp (t :: ts) = increases (progress t) ts.
Proof.
  intros H. cbn [increases]. destruct (Z.gtb_spec (progress t) sp); [lia|reflexivity].
Qed.

Lemma increases_advance t ts sp :
  sp < progress t -> increases sp (t :: ts) = S (increases (progress t) ts).
Proof.
  intros H. cbn [increases]. destruct (Z.gtb_spec (progress t) sp); [reflexivity|lia].
Qed.

(** From counter value [i] the loop polls at most [pollingTrials - i] times,
    plus 14 times for every poll that shows progress. *)
Lemma poll_loop_polls_bound ts : forall i sp tag,
  0 <= i <= pollingTrials ->
  Z.of_nat (polls (trace (poll_loop (map Ok ts) i sp tag)))
  <= pollingTrials - i
     + 14 * Z.of_nat (increases sp
                        (firstn (polls (trace (poll_loop (map Ok ts) i sp tag))) ts)).
Proof.
  unfold pollingTrials.
  induction ts as [|t ts IH]; intros i sp tag Hi; cbn [map].
  - destruct (Z.lt_ge_cases i pollingTrials) as [Hlt|Hge].
    + rewrite poll_loop_pending by assumption. cbn [trace fst polls firstn increases]. lia.
    + rewrite poll_loop_exhausted by assumption. cbn [trace fst polls firstn increases]. lia.
  - destruct (Z.lt_ge_cases i pollingTrials) as [Hlt|Hge];
      [|rewrite poll_loop_exhausted by assumption;
        cbn [trace fst polls firstn increases]; lia].
    unfold pollingTrials in Hlt.
    destruct (poll_loop_cases t (map Ok ts) i sp tag Hlt)
      as [[Ht ->]|[(Ht & Hsp & ->)|(Ht & Hsp & ->)]].
    + cbn [trace fst polls]. lia.
    + rewrite trace_prefix, polls_app. cbn [tick polls Nat.add firstn].
      rewrite increases_advance by assumption.
      specialize (IH 1 (progress t) t ltac:(lia)). lia.
    + rewrite trace_prefix, polls_app. cbn [tick polls Nat.add firstn].
      rewrite increases_stall by assumption.
      specialize (IH (i + 1) (progress t) t ltac:(lia)). lia.
Qed.

(** A loop that is still waiting has not used that allowance up. *)
Lemma poll_loop_pending_bound ts : forall i sp tag,
  0 <= i ->
  outcome (poll_loop (map Ok ts) i sp tag) = Pending ->
  Z.of_nat (List.length ts) < pollingTrials - i + 14 * Z.of_nat (increases sp ts).
Proof.
  unfold pollingTrials.
  induction ts as [|t ts IH]; intros i sp tag Hi Hpend; cbn [map] in Hpend.
  - destruct (Z.lt_ge_cases i pollingTrials) as [Hlt|Hge].
    + unfold pollingTrials in Hlt. cbn [List.length increases]. lia.
    + rewrite poll_loop_exhausted in Hpend by assumption. discriminate.
  - destruct (Z.lt_ge_cases i pollingTrials) as [Hlt|Hge];
      [|rewrite poll_loop_exhausted in Hpend by assumption; discriminate].
    unfold pollingTrials in Hlt.
    destruct (poll_loop_cases t (map Ok ts) i sp tag Hlt)
      as [[Ht Heq]|[(Ht & Hsp & Heq)|(Ht & Hsp & Heq)]];
      rewrite Heq in Hpend; [discriminate| |]; rewrite outcome_prefix in Hpend.
    + rewrite increases_advance by assumption.
      specialize (IH 1 (progress t) t ltac:(lia) Hpend). cbn [List.length]. lia.
    + rewrite increases_stall by assumption.
      specialize (IH (i + 1) (progress t) t ltac:(lia) Hpend). cbn [List.length]. lia.
Qed.

(** X2. The monitor polls at most 15 times plus 14 times per poll that
    showed more progress than the one before; so when the answers keep
    arriving and outnumber 15 plus 14 times the increases of the whole
    script, the monitor ends, in success or in the exit with code 1. *)
Theorem polls_bounded_by_progress (tag : Tag) (ts : list Tag) :
  (polls (trace (waitForFileSynced (map Ok ts) tag))
   <= 15 + 14 * increases 0 (firstn (polls (trace (waitForFileSynced (map Ok ts) tag))) ts))%nat
  /\ ((15 + 14 * increases 0 ts <= List.length ts)%nat ->
      outcome (waitForFileSynced (map Ok ts) tag) = Returned tt
      \/ outcome (waitForFileSynced (map Ok ts) tag) = Exited 1).
Proof.
  rewrite waitForFileSynced_unfold. cbn [trace outcome fst snd polls]. split.
  - rewrite polls_app.
    assert (E : polls (epilogue (outcome (poll_loop (map Ok ts) 0 0 tag))) = O)
      by (destruct (outcome _) as [[|]|?|?|]; reflexivity).
    rewrite E, Nat.add_0_r.
    pose proof (poll_loop_polls_bound ts 0 0 tag) as H. unfold pollingTrials in H.
    specialize (H ltac:(lia)). lia.
  - intros Hlen.
    destruct (poll_loop_ok_outcome ts 0 0 tag) as [[[|] ->]|Hpend]; cbn; auto.
    pose proof (poll_loop_pending_bound ts 0 0 tag ltac:(lia) Hpend) as H.
    unfold pollingTrials in H. lia.
Qed.

Lemma polls_bounded_by_progress_witness :
  outcome (waitForFileSynced (map Ok (repeat stalled_tag 15)) stalled_tag) = Returned tt
  \/ outcome (waitForFileSynced (map Ok (repeat stalled_tag 15)) stalled_tag) = Exited 1.
Proof.
  apply (proj2 (polls_bounded_by_progress stalled_tag (repeat stalled_tag 15))).
  cbn. lia.
Defined.

Lemma rising_pending ts : forall i sp tag,
  i < pollingTrials -> rising sp ts ->
  outcome (poll_loop (map Ok ts) i sp tag) = Pending.
Proof.
  induction ts as [|t ts IH]; intros i sp tag Hi Hr; cbn [map].
  - now rewrite poll_loop_pending.
  - destruct Hr as (H1 & H2 & H3). rewrite poll_loop_advance by assumption.
    rewrite outcome_prefix. apply IH; [unfold pollingTrials; lia|exact H3].
Qed.

(** X3. As long as every poll shows more progress than the one before and
    falls short of [split], the monitor keeps polling, however many polls
    that takes: it has no ceiling of its own. *)
Theorem progress_keeps_monitor_polling (tag : Tag) (ts : list Tag) :
  rising 0 ts ->
  outcome (waitForFileSynced (map Ok ts) tag) = Pending
  /\ polls (trace (waitForFileSynced (map Ok ts) tag)) = List.length ts.
Proof.
  intros Hr. rewrite waitForFileSynced_unfold. cbn [trace outcome fst snd polls].
  pose proof (rising_pending ts 0 0 tag ltac:(unfold pollingTrials; lia) Hr) as Hp.
  rewrite polls_app, (pending_polls _ _ _ _ Hp), Hp. cbn. split; [reflexivity|lia].
Qed.

Lemma progress_keeps_monitor_polling_witness :
  rising 0 trickle
  /\ outcome (waitForFileSynced (map Ok trickle) stalled_tag) = Pending
  /\ polls (trace (waitForFileSynced (map Ok trickle) stalled_tag)) = 40%nat.
Proof.
  assert (H : rising 0 trickle) by (vm_compute; intuition discriminate).
  split; [exact H|]. exact (progress_keeps_monitor_polling stalled_tag trickle H).
Defined.

(** What the flag [synced] says about the snapshots that were polled. *)
Lemma poll_loop_verdict ts : forall i sp tag,
  (outcome (poll_loop (map Ok ts) i sp tag) = Returned true ->
   exists before t after,
     ts = before ++ t :: after
     /\ split t <= progress t
     /\ Forall (fun t' => progress t' < split t') before
     /\ polls (trace (poll_loop (map Ok ts) i sp tag)) = S (List.length before))
  /\ (outcome (poll_loop (map Ok ts) i sp tag) = Returned false ->
      Forall (fun t' => progress t' < split t')
             (firstn (polls (trace (poll_loop (map Ok ts) i sp tag))) ts)).
Proof.
  induction ts as [|t ts IH]; intros i sp tag; cbn [map].
  - destruct (Z.lt_ge_cases i pollingTrials) as [Hi|Hi].
    + rewrite poll_loop_pending by assumption. split; discriminate.
    + rewrite poll_loop_exhausted by assumption. split; [discriminate|constructor].
  - destruct (Z.lt_ge_cases i pollingTrials) as [Hi|Hi];
      [|rewrite poll_loop_exhausted by assumption; split; [discriminate|constructor]].
    assert (Hstep : forall i',
      poll_loop (Ok t :: map Ok ts) i sp tag
      = prefix (tick tag t) (poll_loop (map Ok ts) i' (progress t) t) ->
      progress t < split t ->
      (outcome (poll_loop (Ok t :: map Ok ts) i sp tag) = Returned true ->
       exists before t0 after,
         t :: ts = before ++ t0 :: after
         /\ split t0 <= progress t0
         /\ Forall (fun t' => progress t' < split t') before
         /\ polls (trace (poll_loop (Ok t :: map Ok ts) i sp tag))
            = S (List.length before))
      /\ (outcome (poll_loop (Ok t :: map Ok ts) i sp tag) = Returned false ->
          Forall (fun t' => progress t' < split t')
                 (firstn (polls (trace (poll_loop (Ok t :: map Ok ts) i sp tag)))
                         (t :: ts)))).
    { intros i' -> Ht. rewrite outcome_prefix, trace_prefix, polls_app.
      destruct (IH i' (progress t) t) as [IHt IHf]. split.
      - intros H. destruct (IHt H) as (before & t0 & after & -> & H0 & Hb & Hn).
        exists (t :: before), t0, after. repeat split; try assumption.
        + now constructor.
        + rewrite Hn. reflexivity.
      - intros H. cbn [tick polls Nat.add firstn]. constructor; [exact Ht|now apply IHf]. }
    destruct (poll_loop_cases t (map Ok ts) i sp tag Hi)
      as [[Ht Heq]|[(Ht & Hsp & Heq)|(Ht & Hsp & Heq)]].
    + rewrite Heq. split; [|discriminate]. intros _.
      exists [], t, ts. repeat split; [exact Ht|constructor].
    + now apply (Hstep 1).
    + now apply (Hstep (i + 1)).
Qed.

(** X4. The monitor reports success only on a snapshot that was complete:
    when it returns, the last snapshot it polled had
    [seen + synced >= split] and no earlier one had; when it exits, the
    code is 1 and no snapshot it polled was complete. *)
Theorem verdict_matches_snapshots (tag : Tag) (ts : list Tag) :
  (outcome (waitForFileSynced (map Ok ts) tag) = Returned tt ->
   exists before t after,
     ts = before ++ t :: after
     /\ split t <= seen t + synced t
     /\ Forall (fun t' => seen t' + synced t' < split t') before
     /\ polls (trace (waitForFileSynced (map Ok ts) tag)) = S (List.length before))
  /\ (forall c,
        outcome (waitForFileSynced (map Ok ts) tag) = Exited c ->
        c = 1
        /\ Forall (fun t' => seen t' + synced t' < split t')
                  (firstn (polls (trace (waitForFileSynced (map Ok ts) tag))) ts)).
Proof.
  rewrite waitForFileSynced_unfold. cbn [trace outcome fst snd polls].
  rewrite polls_app.
  destruct (poll_loop_verdict ts 0 0 tag) as [Ht Hf].
  destruct (poll_loop_outcome (map Ok ts) 0 0 tag) as [[[|] Hout]|[[e Hout]|Hout]];
    rewrite Hout in *; cbn [verdict epilogue polls]; rewrite Nat.add_0_r; split;
    try discriminate.
  - intros _. exact (Ht eq_refl).
  - intros c Hc. injection Hc as <-. split; [reflexivity|exact (Hf eq_refl)].
Qed.

Lemma verdict_matches_snapshots_witness :
  (exists before t after,
      syncing_script = before ++ t :: after
      /\ split t <= seen t + synced t
      /\ Forall (fun t' => seen t' + synced t' < split t') before
      /\ polls (trace (waitForFileSynced (map Ok syncing_script) tag0))
         = S (List.length before))
  /\ Forall (fun t' => seen t' + synced t' < split t')
            (firstn (polls (trace (waitForFileSynced (map Ok (repeat stalled_tag 15))
                                                     stalled_tag)))
                    (repeat stalled_tag 15)).
Proof.
  split.
  - apply (proj1 (verdict_matches_snapshots tag0 syncing_script)). reflexivity.
  - apply (proj2 (verdict_matches_snapshots stalled_tag (repeat stalled_tag 15)) 1).
    reflexivity.
Defined.

Lemma poll_loop_slept ts : forall i sp tag,
  slept (trace (poll_loop (map Ok ts) i sp tag))
  = pollingTime
    * Z.of_nat (List.length
                  (filter incomplete
                          (firstn (polls (trace (poll_loop (map Ok ts) i sp tag))) ts))).
Proof.
  induction ts as [|t ts IH]; intros i sp tag; cbn [map].
  - destruct (Z.lt_ge_cases i pollingTrials) as [Hi|Hi].
    + now rewrite poll_loop_pending.
    + now rewrite poll_loop_exhausted.
  - destruct (Z.lt_ge_cases i pollingTrials) as [Hi|Hi];
      [|now rewrite poll_loop_exhausted].
    destruct (poll_loop_cases t (map Ok ts) i sp tag Hi)
      as [[Ht ->]|[(Ht & Hsp & ->)|(Ht & Hsp & ->)]].
    + assert (Hinc : incomplete t = false) by (apply Z.ltb_ge; exact Ht).
      cbn [trace fst polls slept firstn filter]. rewrite Hinc. reflexivity.
    + assert (Hinc : incomplete t = true) by (apply Z.ltb_lt; exact Ht).
      rewrite trace_prefix. cbn [tick app polls slept firstn filter].
      rewrite Hinc, IH. cbn [List.length]. lia.
    + assert (Hinc : incomplete t = true) by (apply Z.ltb_lt; exact Ht).
      rewrite trace_prefix. cbn [tick app polls slept firstn filter].
      rewrite Hinc, IH. cbn [List.length]. lia.
Qed.

Lemma stalled_incomplete ts : forall last,
  stalled last ts -> filter incomplete ts = ts.
Proof.
  induction ts as [|t ts IH]; intros last; [reflexivity|].
  intros (_ & Ht & Hst). cbn [filter].
  replace (incomplete t) with true by (symmetry; apply Z.ltb_lt; exact Ht).
  now rewrite (IH _ Hst).
Qed.

Lemma timeout_polls (tag : Tag) (ts : list Tag) :
  stalled 0 ts -> (15 <= List.length ts)%nat ->
  outcome (poll_loop (map Ok ts) 0 0 tag) = Returned false
  /\ polls (trace (waitForFileSynced (map Ok ts) tag)) = 15%nat.
Proof.
  intros Hst Hlen. rewrite waitForFileSynced_unfold. cbn [trace fst polls].
  rewrite <- (firstn_skipn 15 ts) in Hst |- *. rewrite map_app.
  destruct (stalled_exhausts (firstn 15 ts) 0 0 tag (map Ok (skipn 15 ts)))
    as [Hout Hpolls].
  - eapply stalled_app, Hst.
  - rewrite firstn_length_le by lia. reflexivity.
  - rewrite polls_app, Hout, Hpolls, firstn_length_le by lia. now split.
Qed.

(** X5. The monitor sleeps 500 ms after every poll that finds the upload
    incomplete, the last one before a timeout included, and never after a
    poll that finds it complete. A run on which progress never shows has
    therefore slept 7500 ms when it times out. *)
Theorem sleeps_after_incomplete_polls (tag : Tag) (ts : list Tag) :
  slept (trace (waitForFileSynced (map Ok ts) tag))
  = 500 * Z.of_nat (List.length
                      (filter incomplete
                         (firstn (polls (trace (waitForFileSynced (map Ok ts) tag))) ts)))
  /\ (stalled 0 ts -> (15 <= List.length ts)%nat ->
      slept (trace (waitForFileSynced (map Ok ts) tag)) = 7500).
Proof.
  assert (Hgen : slept (trace (waitForFileSynced (map Ok ts) tag))
                 = 500 * Z.of_nat (List.length
                      (filter incomplete
                         (firstn (polls (trace (waitForFileSynced (map Ok ts) tag))) ts)))).
  { rewrite waitForFileSynced_unfold. cbn [trace fst polls slept].
    rewrite slept_app, polls_app.
    assert (E : forall o, slept (epilogue o) = 0 /\ polls (epilogue o) = O)
      by (intros [[|]|?|?|]; now split).
    destruct (E (outcome (poll_loop (map Ok ts) 0 0 tag))) as [-> ->].
    rewrite Nat.add_0_r, Z.add_0_r. apply poll_loop_slept. }
  split; [exact Hgen|]. intros Hst Hlen. rewrite Hgen.
  destruct (timeout_polls tag ts Hst Hlen) as [_ ->].
  rewrite <- (firstn_skipn 15 ts) in Hst. apply stalled_app in Hst.
  rewrite (stalled_incomplete _ _ Hst), firstn_length_le by lia. reflexivity.
Qed.

Lemma sleeps_after_incomplete_polls_witness :
  slept (trace (waitForFileSynced (map Ok (repeat stalled_tag 15)) stalled_tag)) = 7500.
Proof.
  apply (proj2 (sleeps_after_incomplete_polls stalled_tag (repeat stalled_tag 15))).
  - vm_compute; intuition discriminate.
  - cbn. lia.
Defined.

Lemma poll_loop_polled_uids ts : forall i sp tag,
  polled_uids (trace (poll_loop (map Ok ts) i sp tag))
  = map uid (firstn (polls (trace (poll_loop (map Ok ts) i sp tag))) (tag :: ts)).
Proof.
  induction ts as [|t ts IH]; intros i sp tag; cbn [map].
  - destruct (Z.lt_ge_cases i pollingTrials) as [Hi|Hi].
    + now rewrite poll_loop_pending.
    + now rewrite poll_loop_exhausted.
  - destruct (Z.lt_ge_cases i pollingTrials) as [Hi|Hi];
      [|now rewrite poll_loop_exhausted].
    destruct (poll_loop_cases t (map Ok ts) i sp tag Hi)
      as [[Ht ->]|[(Ht & Hsp & ->)|(Ht & Hsp & ->)]].
    + reflexivity.
    + rewrite trace_prefix. cbn [tick app polls polled_uids]. rewrite IH. reflexivity.
    + rewrite trace_prefix. cbn [tick app polls polled_uids]. rewrite IH. reflexivity.
Qed.

(** X6. The first poll asks for the tag that was passed in; every later
    poll asks for the [uid] of the snapshot the poll before it returned. *)
Theorem polls_follow_returned_uid (tag : Tag) (ts : list Tag) :
  polled_uids (trace (waitForFileSynced (map Ok ts) tag))
  = map uid (firstn (polls (trace (waitForFileSynced (map Ok ts) tag))) (tag :: ts)).
Proof.
  rewrite waitForFileSynced_unfold. cbn [trace fst polls polled_uids].
  rewrite polled_uids_app, polls_app.
  assert (E : forall o, polled_uids (epilogue o) = [] /\ polls (epilogue o) = O)
    by (intros [[|]|?|?|]; now split).
  destruct (E (outcome (poll_loop (map Ok ts) 0 0 tag))) as [-> ->].
  rewrite Nat.add_0_r, app_nil_r. apply poll_loop_polled_uids.
Qed.

(** ** [getArtifactId] and [downloadAndExtractArtifact] *)

(** X7. [getArtifactId] makes one request, the listing filtered by
    [BUILD_NAME]. A rejected request is thrown on; a listing that is
    missing or empty throws 'No artifacts found...'; otherwise the result
    is the [id] of one of the listed artifacts, never [undefined]. *)
Theorem getArtifactId_outcomes (env : Env) :
  trace (getArtifactId env) = [ListArtifacts (OWNER env) (REPO env) (BUILD_NAME env)]
  /\ match list_artifacts env with
     | Fail e => outcome (getArtifactId env) = Threw e
     | Ok None | Ok (Some []) =>
         outcome (getArtifactId env) = Threw (no_artifacts_message (BUILD_NAME env))
     | Ok (Some l) =>
         exists a, In a l /\ outcome (getArtifactId env) = Returned (Some (id a))
     end.
Proof.
  unfold getArtifactId. destruct (list_artifacts env) as [[[|a0 l]|]|e];
    cbn; try (split; reflexivity).
  split; [reflexivity|].
  destruct (insert_sorted newest_first a0 (sort newest_first l)) as [|a s] eqn:Hs.
  - apply (sort_nil newest_first (a0 :: l)) in Hs. discriminate.
  - exists a. split; [|reflexivity].
    apply (Permutation_in a (Permutation_sym (sort_perm newest_first (a0 :: l)))).
    cbn [sort]. rewrite Hs. now left.
Qed.

(** X8. [downloadAndExtractArtifact] first asks for the archive location of
    the artifact it was given. It downloads only from the location that
    request returned, always into './artifact', and logs 'Artifact
    extracted!' exactly when it returns, which it does exactly when both the
    request and the download succeed. *)
Theorem download_follows_zip_url (env : Env) (artifactId : option Z) :
  hd_error (trace (downloadAndExtractArtifact env artifactId))
  = Some (GetArtifactZip (OWNER env) (REPO env) artifactId)
  /\ (forall url path,
        In (DownloadAndExtract url path) (trace (downloadAndExtractArtifact env artifactId)) ->
        artifact_zip_url env artifactId = Ok url /\ path = OUT_DIR)
  /\ (In (ConsoleLog "Artifact extracted!") (trace (downloadAndExtractArtifact env artifactId))
      <-> outcome (downloadAndExtractArtifact env artifactId) = Returned tt)
  /\ (outcome (downloadAndExtractArtifact env artifactId) = Returned tt
      <-> exists url, artifact_zip_url env artifactId = Ok url
                      /\ download_and_extract env url = Ok tt).
Proof.
  unfold downloadAndExtractArtifact.
  destruct (artifact_zip_url env artifactId) as [url|e] eqn:Hurl; cbn.
  - destruct (download_and_extract env url) as [[]|e] eqn:Hdl; cbn.
    + split; [reflexivity|]. split.
      * intros u p [H|[H|[H|[]]]]; try discriminate. injection H as <- <-. now split.
      * split; [split; [reflexivity|intuition]|].
        split; [intros _; exists url; now split|reflexivity].
    + split; [reflexivity|]. split.
      * intros u p [H|[H|[]]]; try discriminate. injection H as <- <-. now split.
      * split; [split; [intros [H|[H|[]]]; discriminate|discriminate]|].
        split; [discriminate|]. intros (u & [= <-] & H). congruence.
  - split; [reflexivity|]. split.
    + intros u p [H|[]]. discriminate.
    + split; [split; [intros [H|[]]; discriminate|discriminate]|].
      split; [discriminate|]. intros (u & H & _). discriminate.
Qed.

(** ** Selecting a postage batch *)

Lemma select_batch_filter (l : list PostageBatch) :
  select_batch (filter eligible l) = select_batch l.
Proof.
  unfold select_batch.
  replace (filter eligible (filter eligible l)) with (filter eligible l);
    [reflexivity|].
  induction l as [|b l IH]; [reflexivity|]. cbn [filter].
  destruct (eligible b) eqn:Hb; [|exact IH]. cbn [filter]. rewrite Hb. now f_equal.
Qed.

(** X9. A batch found in the front part of a list is the selection from
    the whole list; only when the front part has no eligible batch does the
    rest decide. Batches that are not eligible can be dropped from the list
    without changing the selection. *)
Theorem select_batch_app (l1 l2 : list PostageBatch) :
  select_batch (l1 ++ l2)
  = match outcome (select_batch l1) with
    | Returned b => ([], Returned b)
    | _ => select_batch l2
    end
  /\ select_batch (filter eligible (l1 ++ l2)) = select_batch (l1 ++ l2).
Proof.
  split; [|apply select_batch_filter].
  unfold select_batch. rewrite filter_app.
  destruct (filter eligible l1) as [|b l]; reflexivity.
Qed.

(** ** The order of the external calls *)

Lemma run_protocol_app (s : Stage) (tr1 tr2 : list Event) :
  run_protocol s (tr1 ++ tr2)
  = match run_protocol s tr1 with
    | Some s' => run_protocol s' tr2
    | None => None
    end.
Proof.
  revert s. induction tr1 as [|e tr1 IH]; intros s; [reflexivity|].
  cbn [app run_protocol]. destruct (advance s e); [apply IH|reflexivity].
Qed.

Lemma conforms_bind {A B} (s : Stage) (m : M A) (k : A -> M B)
    (Q : A -> Stage -> Prop) (R : B -> Stage -> Prop) :
  conforms s m Q ->
  (forall a s', Q a s' -> conforms s' (k a) R) ->
  conforms s (bind m k) R.
Proof.
  intros (s1 & Hrun & HQ) Hk. destruct m as [tr [a|e|c|]];
    try (exists s1; split; [exact Hrun|discriminate]).
  destruct (Hk a s1 (HQ a eq_refl)) as (s2 & Hrun2 & HR).
  exists s2. rewrite bind_returned, trace_prefix, outcome_prefix, run_protocol_app.
  cbn [trace fst] in Hrun. rewrite Hrun. now split.
Qed.

Lemma conforms_value {A} (s s' : Stage) (tr : list Event) (o : Outcome A)
    (Q : A -> Stage -> Prop) :
  run_protocol s tr = Some s' ->
  (forall a, o = Returned a -> Q a s') ->
  conforms s ((tr, o) : M A) Q.
Proof. intros Hrun HQ. now exists s'. Qed.

Lemma conforms_await {A} (s s' : Stage) (e : Event) (r : Res A) :
  advance s e = Some s' -> conforms s (await e r) (fun _ s1 => s1 = s').
Proof. intros H. exists s'. cbn. now rewrite H. Qed.

Lemma conforms_emit (s s' : Stage) (e : Event) :
  advance s e = Some s' -> conforms s (emit e) (fun _ s1 => s1 = s').
Proof. intros H. exists s'. cbn. now rewrite H. Qed.

Lemma conforms_silent {A} (s : Stage) (m : M A) :
  trace m = [] -> conforms s m (fun _ s1 => s1 = s).
Proof. intros H. exists s. rewrite H. now split. Qed.

Lemma run_protocol_steady (s : Stage) (tr : list Event) :
  Forall (fun e => advance s e = Some s) tr -> run_protocol s tr = Some s.
Proof.
  induction 1 as [|e tr He _ IH]; [reflexivity|].
  cbn [run_protocol]. now rewrite He.
Qed.

Lemma conforms_waitForFileSynced rs tag :
  conforms Uploaded (waitForFileSynced rs tag) (fun _ s1 => s1 = Uploaded).
Proof.
  exists Uploaded. split; [|reflexivity].
  apply run_protocol_steady, Forall_trace_waitForFileSynced; reflexivity.
Qed.

Lemma select_batch_trace batches : trace (select_batch batches) = [].
Proof.
  unfold select_batch. now destruct (hd_error (filter eligible batches)).
Qed.

Lemma pick_newest_trace build_name artifacts :
  trace (pick_newest build_name artifacts) = [].
Proof. now destruct artifacts as [[|a l]|]. Qed.

(** [next] handles one bind whose first computation is a single call. *)
Ltac next :=
  eapply conforms_bind;
  [ first [ apply conforms_await; reflexivity
          | apply conforms_emit; reflexivity
          | apply conforms_silent; first [apply select_batch_trace
                                         |apply pick_newest_trace]
          | apply conforms_waitForFileSynced ]
  | intros ? ? -> ].

Lemma upload_conforms (env : Env) :
  conforms IndexChecked (upload env) (fun _ s => s = Published).
Proof.
  unfold upload, updateFeedAndPrint, writeFeed.
  do 12 next.
  eapply conforms_bind.
  - do 2 next. apply conforms_silent. reflexivity.
  - intros ? ? ->. next. apply conforms_emit. reflexivity.
Qed.

(** X10. In every run the external calls come in one fixed order, each at
    most once except the polls of the tag: clear the workspace, list the
    artifacts, locate the archive, download it, stat the directory, stat
    the entry point, list the batches, create the tag, upload, poll,
    unlock the wallet, create the feed manifest, write the feed. A run
    that returns has made all of them and returns 'done'. *)
Theorem calls_come_in_order (env : Env) :
  exists s,
    run_protocol Fresh (trace (main env)) = Some s
    /\ forall r, outcome (main env) = Returned r -> r = "done" /\ s = Published.
Proof.
  change (conforms Fresh (main env) (fun r s => r = "done" /\ s = Published)).
  unfold main, getArtifactId, downloadAndExtractArtifact.
  next.
  eapply conforms_bind; [do 1 next; apply conforms_silent, pick_newest_trace|].
  intros ? ? ->. next.
  eapply conforms_bind; [do 2 next; apply conforms_emit; reflexivity|].
  intros ? ? ->. next.
  eapply conforms_bind with (Q := fun _ s => s = DirChecked).
  { match goal with |- context [if ?b then _ else _] => destruct b end.
    - now apply conforms_silent.
    - apply (conforms_value _ DirChecked); [reflexivity|discriminate]. }
  intros ? ? ->.
  eapply conforms_bind with (Q := fun _ s => s = IndexChecked).
  { destruct (fs_stat_isDirectory env index_html);
      apply (conforms_value _ IndexChecked); (reflexivity || discriminate). }
  intros ? ? ->.
  eapply conforms_bind; [apply upload_conforms|].
  intros ? ? ->. apply (conforms_value _ Published); [reflexivity|].
  intros r [= <-]. now split.
Qed.

(** ** What stands behind the calls to the node *)

Lemma returned_unit (o : Outcome unit) (a : unit) : o = Returned a -> o = Returned tt.
Proof. now destruct a. Qed.

(** X12. In every run, an upload sends the directory './artifact' under
    the [uid] of the tag that was created for it, and the tag is polled
    only after that upload has returned. *)
Theorem upload_tagged_then_polled (env : Env) :
  Forall (upload_backed env) (trace (main env)).
Proof.
  unfold main, getArtifactId, downloadAndExtractArtifact, upload,
    updateFeedAndPrint, writeFeed.
  walk; try (cbn; exact I).
  - match goal with |- context [if ?b then _ else _] => destruct b end;
      walk; exact I.
  - cbn. split; [reflexivity|].
    match goal with
    | H3 : outcome (await CreateTag _) = Returned ?t |- _ =>
        exists t; split; [exact (await_returned _ _ _ H3)|reflexivity]
    end.
  - cbn.
    match goal with
    | H2 : outcome (select_batch _) = Returned ?b,
      H3 : outcome (await CreateTag _) = Returned ?t,
      H4 : outcome (await (UploadFilesFromDirectory _ _ ?o) _) = Returned ?r |- _ =>
        exists b, t, o, r; repeat split;
        [exact (await_returned _ _ _ H3)|exact (await_returned _ _ _ H4)]
    end.
Qed.

(** ** How a run ends *)

Lemma exits_loudly_bind {A B} (m : M A) (k : A -> M B) :
  exits_loudly m ->
  (forall a, outcome m = Returned a -> exits_loudly (k a)) ->
  exits_loudly (bind m k).
Proof.
  intros Hm Hk c. destruct m as [tr [a|e|c'|]].
  - rewrite bind_returned, outcome_prefix, trace_prefix. intros Hc.
    destruct (Hk a eq_refl c Hc) as (-> & tr' & msg & -> & Hmsg).
    split; [reflexivity|]. exists (tr ++ tr'), msg. now rewrite app_assoc.
  - change (bind ((tr, Threw e) : M A) k) with ((tr, Threw e) : M B). discriminate.
  - change (bind ((tr, Exited c') : M A) k) with ((tr, Exited c') : M B).
    intros [= <-]. destruct (Hm c' eq_refl) as (Hc & tr' & msg & Htr & Hmsg).
    split; [exact Hc|]. now exists tr', msg.
  - change (bind ((tr, Pending) : M A) k) with ((tr, Pending) : M B). discriminate.
Qed.

Lemma exits_loudly_never {A} (m : M A) :
  (forall c, outcome m <> Exited c) -> exits_loudly m.
Proof. intros H c Hc. now destruct (H c). Qed.

Lemma exits_loudly_await {A} (e : Event) (r : Res A) : exits_loudly (await e r).
Proof. apply exits_loudly_never. now destruct r. Qed.

Lemma exits_loudly_emit (e : Event) : exits_loudly (emit e).
Proof. now apply exits_loudly_never. Qed.

Lemma exits_loudly_ret {A} (a : A) : exits_loudly (ret a : M A).
Proof. now apply exits_loudly_never. Qed.

Lemma exits_loudly_select_batch batches : exits_loudly (select_batch batches).
Proof.
  apply exits_loudly_never. unfold select_batch.
  now destruct (hd_error (filter eligible batches)).
Qed.

Lemma exits_loudly_pick_newest build_name artifacts :
  exits_loudly (pick_newest build_name artifacts).
Proof. apply exits_loudly_never. now destruct artifacts as [[|a l]|]. Qed.

Lemma exits_loudly_exit {A} (msg : string) :
  In msg exit_messages ->
  exits_loudly (emit (ConsoleError msg) ;; process_exit 1 : M A).
Proof.
  intros Hmsg c [= <-]. split; [reflexivity|]. exists [], msg. now split.
Qed.

Lemma exits_loudly_waitForFileSynced rs tag : exits_loudly (waitForFileSynced rs tag).
Proof.
  intros c. rewrite waitForFileSynced_unfold. cbn [outcome trace fst snd].
  destruct (poll_loop_outcome rs 0 0 tag) as [[[|] Hout]|[[e Hout]|Hout]];
    rewrite Hout; cbn [verdict epilogue]; try discriminate.
  intros [= <-]. split; [reflexivity|].
  exists (BarStart (split tag) 0 :: trace (poll_loop rs 0 0 tag) ++ [BarStop]),
         "Data syncing timeout".
  split; [cbn; now rewrite <- app_assoc|cbn; auto].
Qed.

Ltac loud :=
  repeat first
    [ apply exits_loudly_waitForFileSynced
    | apply exits_loudly_exit; cbn; tauto
    | apply exits_loudly_await
    | apply exits_loudly_emit
    | apply exits_loudly_ret
    | apply exits_loudly_select_batch
    | apply exits_loudly_pick_newest
    | apply exits_loudly_bind; [|intros ? ?] ].

(** X13. Whenever a run exits the process, the exit code is 1 and the
    last thing the run did was to print, on the error console, that the
    directory does not exist, that index.html is missing, or that syncing
    timed out. *)
Theorem every_exit_is_announced (env : Env) : exits_loudly (main env).
Proof.
  unfold main, getArtifactId, downloadAndExtractArtifact. loud.
  - match goal with |- context [if ?b then _ else _] => destruct b end; loud.
  - destruct (fs_stat_isDirectory env index_html).
    + now apply exits_loudly_never.
    + intros c [= <-]. split; [reflexivity|].
      exists [FsStat index_html], "No index.html in ./artifact".
      split; [reflexivity|cbn; auto].
Qed.

Lemma every_exit_is_announced_witness :
  outcome (main (sample_env (Fail "ENOENT") sample_batches)) = Exited 1
  /\ exists tr msg,
       trace (main (sample_env (Fail "ENOENT") sample_batches)) = tr ++ [ConsoleError msg]
       /\ In msg exit_messages.
Proof.
  assert (H : outcome (main (sample_env (Fail "ENOENT") sample_batches)) = Exited 1)
    by reflexivity.
  split; [exact H|].
  exact (proj2 (every_exit_is_announced (sample_env (Fail "ENOENT") sample_batches) 1 H)).
Defined.

(** The monitor prints only its own two messages. *)
Section MonitorTraces.
Context (P : Event -> Prop).
Hypothesis P_RetrieveTag : forall u, P (RetrieveTag u).
Hypothesis P_BarStart : forall total v, P (BarStart total v).
Hypothesis P_BarSetTotal : forall total, P (BarSetTotal total).
Hypothesis P_BarUpdate : forall v, P (BarUpdate v).
Hypothesis P_BarStop : P BarStop.
Hypothesis P_SleepMillis : forall n, P (SleepMillis n).
Hypothesis P_synced : P (ConsoleLog "Data has been synced on Swarm network").
Hypothesis P_timeout : P (ConsoleError "Data syncing timeout").

Lemma Forall_trace_monitor rs tag : Forall P (trace (waitForFileSynced rs tag)).
Proof.
  rewrite waitForFileSynced_unfold. cbn [trace fst].
  constructor; [apply P_BarStart|]. apply Forall_app. split.
  - now apply Forall_trace_poll_loop.
  - destruct (outcome (poll_loop rs 0 0 tag)) as [[|]|?|?|];
      repeat constructor; auto.
Qed.
End MonitorTraces.

Ltac walk_monitor :=
  repeat first
    [ apply Forall_trace_monitor; intros
    | apply Forall_trace_select_batch
    | apply Forall_trace_pick_newest
    | apply Forall_trace_await
    | apply Forall_trace_emit
    | apply Forall_trace_ret
    | apply Forall_trace_throw
    | apply Forall_trace_exit
    | apply Forall_trace_try_catch
    | apply Forall_trace_bind; [|intros ? ?] ].

Ltac aborted_early :=
  right; cbn; split; [repeat constructor|];
  split; [intros Hin; cbn in Hin; intuition discriminate|];
  eexists; reflexivity.

(** With './artifact' not a directory, a run ends at that check or was
    thrown out of before it. *)
Lemma main_not_directory (env : Env) :
  fs_stat_isDirectory env OUT_DIR = Ok false ->
  (exists tr,
      main env = (tr ++ [FsStat OUT_DIR; ConsoleError not_a_directory], Exited 1)
      /\ Forall quiet tr
      /\ ~ In (FsStat index_html) tr)
  \/ (Forall quiet (trace (main env))
      /\ (forall path, ~ In (FsStat path) (trace (main env)))
      /\ exists e, outcome (main env) = Threw e).
Proof.
  intros Hdir. unfold main, getArtifactId, downloadAndExtractArtifact.
  rewrite Hdir. generalize (upload env). intros u.
  destruct (fs_rm env) as [[]|?]; [|aborted_early].
  destruct (list_artifacts env) as [[[|a l]|]|?];
    [aborted_early| |aborted_early|aborted_early].
  cbn -[index_html].
  match goal with
  | |- context [artifact_zip_url env ?x] =>
      destruct (artifact_zip_url env x) as [url|?]; [|aborted_early]
  end.
  cbn -[index_html].
  destruct (download_and_extract env url) as [[]|?]; [|aborted_early].
  left. eexists [_; _; _; _; _; _]. cbn. split; [reflexivity|].
  split; [repeat constructor|]. intros Hin; cbn in Hin; intuition discriminate.
Qed.

(** With './artifact' missing, [fs.stat] rejects and the run throws. *)
Lemma main_directory_missing (env : Env) (e : Error) :
  fs_stat_isDirectory env OUT_DIR = Fail e -> exists e', outcome (main env) = Threw e'.
Proof.
  intros Hdir. unfold main, getArtifactId, downloadAndExtractArtifact.
  rewrite Hdir. generalize (upload env). intros u.
  destruct (fs_rm env) as [[]|?]; [|cbn; eexists; reflexivity].
  destruct (list_artifacts env) as [[[|a l]|]|?]; try (cbn; eexists; reflexivity).
  cbn -[index_html].
  match goal with
  | |- context [artifact_zip_url env ?x] =>
      destruct (artifact_zip_url env x) as [url|?]; [|cbn; eexists; reflexivity]
  end.
  cbn -[index_html].
  destruct (download_and_extract env url) as [[]|?]; cbn; eexists; reflexivity.
Qed.

Lemma not_a_directory_printed (env : Env) :
  Forall (fun ev => ev = ConsoleError not_a_directory ->
                    fs_stat_isDirectory env OUT_DIR = Ok false)
         (trace (main env)).
Proof.
  unfold main, getArtifactId, downloadAndExtractArtifact, upload,
    updateFeedAndPrint, writeFeed.
  walk_monitor; try (intros; unfold not_a_directory in *; cbn in *; congruence).
  match goal with
  | H : outcome (await (FsStat OUT_DIR) _) = Returned ?b |- _ =>
      apply await_returned in H; destruct b
  end; walk_monitor; try (intros; unfold not_a_directory in *; cbn in *; congruence).
Qed.

(** X14. When './artifact' exists but is not a directory, the run never
    looks for index.html, never calls the Bee node and does not return; if
    it gets as far as the check, it prints 'Directory ./artifact does not
    exist' and exits with code 1. That message is printed in no other
    case: in particular not when './artifact' is missing altogether, where
    [fs.stat] rejects and the run throws instead of exiting. *)
Theorem not_a_directory_aborts (env : Env) :
  (fs_stat_isDirectory env OUT_DIR = Ok false ->
   Forall quiet (trace (main env))
   /\ ~ In (FsStat index_html) (trace (main env))
   /\ (forall r, outcome (main env) <> Returned r)
   /\ (In (FsStat OUT_DIR) (trace (main env)) ->
       outcome (main env) = Exited 1
       /\ exists tr,
            trace (main env) = tr ++ [FsStat OUT_DIR; ConsoleError not_a_directory]))
  /\ (In (ConsoleError not_a_directory) (trace (main env)) ->
      fs_stat_isDirectory env OUT_DIR = Ok false)
  /\ (forall e, fs_stat_isDirectory env OUT_DIR = Fail e ->
                exists e', outcome (main env) = Threw e').
Proof.
  split; [|split].
  - intros Hdir.
    destruct (main_not_directory env Hdir)
      as [(tr & -> & Hq & Hidx)|(Hq & Hnot & e & He)]; cbn [trace outcome fst snd].
    + split; [apply Forall_app; split; [exact Hq|repeat constructor]|].
      split.
      * intros Hin. apply in_app_or in Hin. destruct Hin as [Hin|Hin]; [tauto|].
        cbn in Hin. intuition discriminate.
      * split; [discriminate|]. intros _. split; [reflexivity|now exists tr].
    + split; [exact Hq|]. split; [apply Hnot|].
      split; [rewrite He; discriminate|]. intros Hin. now destruct (Hnot _ Hin).
  - intros Hin. pose proof (not_a_directory_printed env) as H.
    rewrite Forall_forall in H. exact (H _ Hin eq_refl).
  - intros e. apply main_directory_missing.
Qed.

Lemma not_a_directory_aborts_witness :
  fs_stat_isDirectory file_env OUT_DIR = Ok false
  /\ outcome (main file_env) = Exited 1
  /\ Forall quiet (trace (main file_env)).
Proof.
  assert (H : fs_stat_isDirectory file_env OUT_DIR = Ok false) by reflexivity.
  split; [exact H|].
  destruct (proj1 (not_a_directory_aborts file_env) H) as (Hq & _ & _ & Hexit).
  split; [|exact Hq]. apply Hexit. vm_compute. intuition.
Defined.

(** ** [program] *)

Lemma bind_returns {A B} (m : M A) (k : A -> M B) (b : B) :
  (forall a r, outcome (k a) = Returned r -> r = b) ->
  forall r, outcome (bind m k) = Returned r -> r = b.
Proof.
  intros Hk r. destruct m as [tr [a|e|c|]]; try discriminate.
  rewrite bind_returned, outcome_prefix. apply Hk.
Qed.

Lemma main_returns_done (env : Env) (r : string) :
  outcome (main env) = Returned r -> r = "done".
Proof.
  revert r. unfold main.
  do 8 (apply bind_returns; intros ?). intros r [= <-]. reflexivity.
Qed.

Lemma done_not_logged_by_main (env : Env) :
  Forall (fun ev => ev <> ConsoleLog "done") (trace (main env)).
Proof.
  unfold main, getArtifactId, downloadAndExtractArtifact, upload,
    updateFeedAndPrint, writeFeed.
  walk_monitor; try (intros; cbn; congruence).
  match goal with |- context [if ?b then _ else _] => destruct b end;
    walk_monitor; cbn; congruence.
Qed.

(** X15. The caller of [main] prints 'done' as the very last thing of a
    run that returned, and prints nothing when the run threw, exited or is
    still waiting; so 'done' appears in the output exactly when the whole
    pipeline went through. *)
Theorem done_logged_iff_returned (env : Env) :
  program env
  = match outcome (main env) with
    | Returned _ => (trace (main env) ++ [ConsoleLog "done"], Returned tt)
    | Threw e => (trace (main env), Threw e)
    | Exited c => (trace (main env), Exited c)
    | Pending => (trace (main env), Pending)
    end
  /\ (In (ConsoleLog "done") (trace (program env))
      <-> outcome (main env) = Returned "done").
Proof.
  pose proof (main_returns_done env) as Hdone.
  pose proof (done_not_logged_by_main env) as Hnot. rewrite Forall_forall in Hnot.
  unfold program. destruct (main env) as [tr [r|e|c|]]; cbn in *.
  - rewrite (Hdone r eq_refl). split; [reflexivity|]. split; [reflexivity|].
    intros _. apply in_or_app. right. now left.
  - split; [reflexivity|]. split; [|discriminate]. intros H. now destruct (Hnot _ H).
  - split; [reflexivity|]. split; [|discriminate]. intros H. now destruct (Hnot _ H).
  - split; [reflexivity|]. split; [|discriminate]. intros H. now destruct (Hnot _ H).
Qed.

(** ** What the output says, and what a call to the node presupposes *)

Lemma writeFeed_returned env stamp wallet topic chunkReference written :
  outcome (writeFeed env stamp wallet topic chunkReference) = Returned written ->
  exists manifest entry,
    createFeedManifest env stamp "sequence" topic (getAddressString wallet) = Ok manifest
    /\ feed_upload env (mkWriter "sequence" topic (getPrivateKey wallet))
         stamp chunkReference = Ok entry
    /\ written = (entry, manifest).
Proof.
  unfold writeFeed. cbv zeta.
  destruct (createFeedManifest env stamp "sequence" topic (getAddressString wallet))
    as [manifest|e]; [|discriminate].
  destruct (feed_upload env (mkWriter "sequence" topic (getPrivateKey wallet))
              stamp chunkReference) as [entry|e]; [|discriminate].
  intros [= <-]. now exists manifest, entry.
Qed.

Lemma getArtifactId_returned (env : Env) (a : option Z) :
  outcome (getArtifactId env) = Returned a ->
  exists l, list_artifacts env = Ok (Some l) /\ l <> []
            /\ a = option_map id (hd_error (sort newest_first l)).
Proof.
  unfold getArtifactId. destruct (list_artifacts env) as [[[|a0 l]|]|e];
    try discriminate.
  intros [= <-]. exists (a0 :: l). repeat split. discriminate.
Qed.

Lemma downloadAndExtractArtifact_returned (env : Env) (a : option Z) (u : unit) :
  outcome (downloadAndExtractArtifact env a) = Returned u ->
  exists url, artifact_zip_url env a = Ok url /\ download_and_extract env url = Ok tt.
Proof.
  unfold downloadAndExtractArtifact.
  destruct (artifact_zip_url env a) as [url|e]; [|discriminate].
  destruct (download_and_extract env url) as [[]|e] eqn:Hdl; cbn; rewrite Hdl;
    [|discriminate].
  intros _. now exists url.
Qed.

Lemma reached_node (env : Env) (a : unit) (artifactId : option Z) (u v w : unit) (b : bool) :
  outcome (await (FsRm OUT_DIR) (fs_rm env)) = Returned a ->
  outcome (getArtifactId env) = Returned artifactId ->
  outcome (downloadAndExtractArtifact env artifactId) = Returned u ->
  outcome (await (FsStat OUT_DIR) (fs_stat_isDirectory env OUT_DIR)) = Returned b ->
  outcome (if b then ret tt
           else emit (ConsoleError ("Directory " ++ OUT_DIR ++ " does not exist")%string) ;;
                process_exit 1 : M unit) = Returned v ->
  outcome (try_catch
             (await (FsStat index_html) (fs_stat_isDirectory env index_html) ;; ret tt)
             (emit (ConsoleError (String.append "No index.html in " OUT_DIR)) ;;
              process_exit 1)) = Returned w ->
  workspace_validated env.
Proof.
  intros Hrm Hid Hdl Hdir Hb Hidx.
  apply await_returned in Hrm, Hdir. destruct a.
  destruct (getArtifactId_returned _ _ Hid) as (l & Hl & Hne & ->).
  destruct (downloadAndExtractArtifact_returned _ _ _ Hdl) as (url & Hurl & Hx).
  destruct b; [|discriminate].
  repeat split; try assumption.
  - now exists l, url.
  - destruct (fs_stat_isDirectory env index_html) as [d|e]; [now exists d|discriminate].
Qed.

(** X17. In every run, a call to the Bee node presupposes a validated
    workspace: the old workspace was removed, the listing held at least
    one artifact, the archive of the newest one was located and
    downloaded, './artifact' is a directory and the stat of its index.html
    succeeded. *)
Theorem node_called_on_validated_workspace (env : Env) :
  Forall (fun e => bee_event e = true -> workspace_validated env) (trace (main env)).
Proof.
  unfold main, upload, updateFeedAndPrint, writeFeed.
  walk; try (cbn; intros Hbee; discriminate Hbee);
    try (intros; eapply reached_node; eassumption).
  match goal with |- context [if ?b then _ else _] => destruct b end;
    walk; cbn; intros Hbee; discriminate Hbee.
Qed.

(** ** The sample run as an instance of the properties above *)

Lemma download_follows_zip_url_witness :
  In (DownloadAndExtract "https://example.org/artifact.zip" OUT_DIR)
     (trace (downloadAndExtractArtifact happy_env (Some 12)))
  /\ artifact_zip_url happy_env (Some 12) = Ok "https://example.org/artifact.zip"
  /\ outcome (downloadAndExtractArtifact happy_env (Some 12)) = Returned tt.
Proof.
  assert (Hin : In (DownloadAndExtract "https://example.org/artifact.zip" OUT_DIR)
                   (trace (downloadAndExtractArtifact happy_env (Some 12))))
    by (vm_compute; intuition).
  destruct (download_follows_zip_url happy_env (Some 12)) as (_ & Hdl & Hlog & _).
  split; [exact Hin|]. split; [exact (proj1 (Hdl _ _ Hin))|].
  apply Hlog. vm_compute. intuition.
Defined.

Lemma calls_come_in_order_witness :
  outcome (main happy_env) = Returned "done"
  /\ run_protocol Fresh (trace (main happy_env)) = Some Published.
Proof.
  assert (H : outcome (main happy_env) = Returned "done") by reflexivity.
  split; [exact H|].
  destruct (calls_come_in_order happy_env) as (s & Hrun & Hret).
  destruct (Hret _ H) as [_ ->]. exact Hrun.
Defined.

Lemma upload_tagged_then_polled_witness :
  upload_backed happy_env
    (UploadFilesFromDirectory "b1" OUT_DIR
       (mkOptions "index.html" "404.html" (Some 7) true false true None))
  /\ upload_backed happy_env (RetrieveTag 7).
Proof.
  split;
    refine (proj1 (Forall_forall _ _) (upload_tagged_then_polled happy_env) _ _);
    vm_compute; intuition.
Defined.

Lemma node_called_on_validated_workspace_witness :
  bee_event GetAllPostageBatch = true /\ workspace_validated happy_env.
Proof.
  split; [reflexivity|].
  refine (proj1 (Forall_forall _ _) (node_called_on_validated_workspace happy_env)
                GetAllPostageBatch _ eq_refl).
  vm_compute. intuition.
Defined.

(** ** Events and what came before them *)

Section Follows.
Context (P : list Event -> Event -> Prop).

Lemma follows_app tr1 : forall ahead tr2,
  follows P ahead tr1 -> follows P (ahead ++ tr1) tr2 ->
  follows P ahead (tr1 ++ tr2).
Proof.
  induction tr1 as [|e tr1 IH]; intros ahead tr2 H1 H2.
  - now rewrite app_nil_r in H2.
  - destruct H1 as [He H1]. split; [exact He|].
    apply IH; [exact H1|]. now rewrite <- app_assoc.
Qed.

Lemma follows_at tr : forall ahead before e after,
  follows P ahead tr -> tr = before ++ e :: after -> P (ahead ++ before) e.
Proof.
  induction tr as [|e0 tr IH]; intros ahead before e after H Heq.
  - now destruct before.
  - destruct H as [He H]. destruct before as [|e1 before].
    + injection Heq as -> _. now rewrite app_nil_r.
    + injection Heq as -> Heq.
      specialize (IH _ _ _ _ H Heq). now rewrite <- app_assoc in IH.
Qed.

Lemma follows_Forall tr : forall ahead,
  Forall (fun e => forall before, P before e) tr -> follows P ahead tr.
Proof.
  induction tr as [|e tr IH]; intros ahead H; [exact I|].
  inversion H; subst. split; auto.
Qed.

Lemma follows_bind {A B} (m : M A) (k : A -> M B) ahead :
  follows P ahead (trace m) ->
  (forall a, outcome m = Returned a -> follows P (ahead ++ trace m) (trace (k a))) ->
  follows P ahead (trace (bind m k)).
Proof.
  destruct m as [tr [a|e|c|]]; cbn [trace fst]; intros Hm Hk; try exact Hm.
  rewrite bind_returned, trace_prefix. apply follows_app; [exact Hm|].
  now apply Hk.
Qed.

Lemma follows_await {A} (e : Event) (r : Res A) ahead :
  P ahead e -> follows P ahead (trace (await e r)).
Proof. intros He. now split. Qed.

Lemma follows_emit (e : Event) ahead : P ahead e -> follows P ahead (trace (emit e)).
Proof. intros He. now split. Qed.

Lemma follows_silent {A} (m : M A) ahead : trace m = [] -> follows P ahead (trace m).
Proof. now intros ->. Qed.

Lemma follows_try_catch {A} (m h : M A) ahead :
  follows P ahead (trace m) -> follows P (ahead ++ trace m) (trace h) ->
  follows P ahead (trace (try_catch m h)).
Proof.
  destruct m as [tr [a|e|c|]]; cbn [trace fst]; intros Hm Hh; try exact Hm.
  unfold try_catch. cbn [outcome snd trace fst]. rewrite trace_prefix.
  now apply follows_app.
Qed.

Lemma follows_monitor rs tag ahead :
  (forall before u, P before (RetrieveTag u)) ->
  (forall before total v, P before (BarStart total v)) ->
  (forall before total, P before (BarSetTotal total)) ->
  (forall before v, P before (BarUpdate v)) ->
  (forall before, P before BarStop) ->
  (forall before n, P before (SleepMillis n)) ->
  (forall before, P before (ConsoleLog "Data has been synced on Swarm network")) ->
  (forall before, P before (ConsoleError "Data syncing timeout")) ->
  follows P ahead (trace (waitForFileSynced rs tag)).
Proof.
  intros. apply follows_Forall, Forall_trace_monitor; auto.
Qed.
End Follows.

Lemma segment_here (w l : list Event) : segment w (l ++ w).
Proof. exists l, []. now rewrite app_nil_r. Qed.

Lemma segment_app_l (w l x : list Event) : segment w l -> segment w (l ++ x).
Proof.
  intros (pre & post & ->). exists pre, (post ++ x). now rewrite <- !app_assoc.
Qed.

Ltac walk_follows :=
  repeat match goal with
  | |- follows ?P ?b (trace (waitForFileSynced ?rs ?t)) =>
      apply (follows_monitor P rs t b); intros
  | |- follows _ _ (trace (select_batch _)) =>
      apply follows_silent, select_batch_trace
  | |- follows _ _ (trace (pick_newest _ _)) =>
      apply follows_silent, pick_newest_trace
  | |- follows _ _ (trace (await _ _)) => apply follows_await
  | |- follows _ _ (trace (emit _)) => apply follows_emit
  | |- follows _ _ (trace (ret _)) => exact I
  | |- follows _ _ (trace (process_exit _)) => exact I
  | |- follows _ _ (trace (try_catch _ _)) => apply follows_try_catch
  | |- follows _ _ (trace (bind _ _)) => apply follows_bind; [|intros ? ?]
  | |- follows _ _ (trace (getArtifactId _)) => unfold getArtifactId
  | |- follows _ _ (trace (downloadAndExtractArtifact _ _)) =>
      unfold downloadAndExtractArtifact
  | |- follows _ _ (trace (upload _)) => unfold upload
  | |- follows _ _ (trace (updateFeedAndPrint _ _ _)) => unfold updateFeedAndPrint
  | |- follows _ _ (trace (writeFeed _ _ _ _ _)) => unfold writeFeed; cbv zeta
  | |- follows _ _ (trace (if ?c then _ else _)) => destruct c
  end.

(** [in_ahead] finds an event in the events ahead, [segment_ahead] a run
    of the monitor. *)
Ltac in_ahead :=
  repeat (apply in_or_app; first [right; cbn; solve [auto 6]|left]).

Ltac segment_ahead :=
  repeat first [apply segment_here|apply segment_app_l].


Lemma main_feed_writes (env : Env) :
  follows (feed_write_backed env) [] (trace (main env)).
Proof.
  unfold main. walk_follows; try (cbn; exact I).
  unfold feed_write_backed.
  match goal with
  | H1 : outcome (await GetAllPostageBatch _) = Returned ?bs,
    H2 : outcome (select_batch ?bs) = Returned ?b,
    H3 : outcome (await CreateTag _) = Returned ?t,
    H4 : outcome (await (UploadFilesFromDirectory _ _ _) _) = Returned _,
    H5 : outcome (waitForFileSynced _ ?t) = Returned _,
    H6 : outcome (await (WalletFromV3 _ _) _) = Returned ?w,
    H7 : outcome (await (CreateFeedManifest _ _ _ _) _) = Returned ?m |- _ =>
      exists bs, b, t, w, m;
      split; [exact (await_returned _ _ _ H1)|];
      split; [exact (select_batch_returned _ _ H2)|];
      split; [exact (await_returned _ _ _ H3)|];
      split; [exact (await_returned _ _ _ H4)|];
      split; [in_ahead|];
      split; [segment_ahead|];
      split; [exact (returned_unit _ _ H5)|];
      split; [exact (await_returned _ _ _ H6)|];
      split; [exact (await_returned _ _ _ H7)|];
      split; [in_ahead|];
      split; reflexivity
  end.
Qed.

(** X11. In every run, what comes before a feed write includes the upload
    of './artifact' under the created tag and the whole run of the
    monitor on that created tag, which reported it synced. The feed
    write publishes the reference that upload returned and pays with the
    selected batch; it is made by a sequence-feed writer for the
    configured topic holding the key of the unlocked wallet, after the
    manifest for that wallet's address was created. *)
Theorem feed_write_only_after_sync (env : Env) (before : list Event) (e : Event)
    (after : list Event) :
  trace (main env) = before ++ e :: after ->
  feed_write_backed env before e.
Proof.
  intros H. exact (follows_at _ _ [] _ _ _ (main_feed_writes env) H).
Qed.

Lemma feed_write_only_after_sync_witness :
  trace (main happy_env)
  = firstn 31 (trace (main happy_env))
      ++ FeedWriterUpload (mkWriter "sequence" "site" "key") "b1" "c0ffee"
      :: skipn 32 (trace (main happy_env))
  /\ feed_write_backed happy_env (firstn 31 (trace (main happy_env)))
       (FeedWriterUpload (mkWriter "sequence" "site" "key") "b1" "c0ffee").
Proof.
  assert (H : trace (main happy_env)
              = firstn 31 (trace (main happy_env))
                  ++ FeedWriterUpload (mkWriter "sequence" "site" "key") "b1" "c0ffee"
                  :: skipn 32 (trace (main happy_env))) by reflexivity.
  split; [exact H|]. exact (feed_write_only_after_sync _ _ _ _ H).
Defined.

Lemma writeFeed_trace env stamp wallet topic chunkReference written :
  outcome (writeFeed env stamp wallet topic chunkReference) = Returned written ->
  trace (writeFeed env stamp wallet topic chunkReference)
  = [CreateFeedManifest stamp "sequence" topic (getAddressString wallet);
     FeedWriterUpload (mkWriter "sequence" topic (getPrivateKey wallet))
                      stamp chunkReference].
Proof.
  unfold writeFeed. cbv zeta.
  destruct (createFeedManifest env stamp "sequence" topic (getAddressString wallet))
    as [manifest|e]; [|discriminate].
  destruct (feed_upload env (mkWriter "sequence" topic (getPrivateKey wallet))
              stamp chunkReference) as [entry|e]; [|discriminate].
  reflexivity.
Qed.

Ltac other_line :=
  unfold log_truthful; split; [|split]; intros Hmsg; cbn in Hmsg; congruence.

Lemma main_status_lines (env : Env) :
  follows (log_truthful env) [] (trace (main env)).
Proof.
  unfold main. walk_follows; try (cbn; exact I); try other_line.
  - unfold log_truthful. split; [|split]; intros Hmsg; try congruence.
    match goal with
    | H0 : outcome (getArtifactId env) = Returned ?i,
      H1 : outcome (await (GetArtifactZip _ _ ?i) _) = Returned ?u,
      H2 : outcome (await (DownloadAndExtract ?u _) _) = Returned ?x |- _ =>
        destruct (getArtifactId_returned _ _ H0) as (l & Hl & Hne & Hi);
        exists l, u; rewrite <- Hi;
        split; [exact Hl|];
        split; [exact Hne|];
        split; [exact (await_returned _ _ _ H1)|];
        split; [destruct x; exact (await_returned _ _ _ H2)|in_ahead]
    end.
  - unfold log_truthful. split; [|split]; intros Hmsg; try congruence.
    match goal with
    | H1 : outcome (await GetAllPostageBatch _) = Returned ?bs,
      H2 : outcome (select_batch ?bs) = Returned ?b,
      H3 : outcome (await CreateTag _) = Returned ?t,
      H4 : outcome (await (UploadFilesFromDirectory _ _ _) _) = Returned ?r,
      H5 : outcome (waitForFileSynced _ ?t) = Returned _ |- _ =>
        exists bs, b, t, r;
        split; [exact (await_returned _ _ _ H1)|];
        split; [exact (select_batch_returned _ _ H2)|];
        split; [exact (await_returned _ _ _ H3)|];
        split; [exact (await_returned _ _ _ H4)|];
        split; [in_ahead|];
        split; [segment_ahead|exact (returned_unit _ _ H5)]
    end.
  - unfold log_truthful. split; [|split]; intros Hmsg; try congruence.
    match goal with
    | H1 : outcome (await GetAllPostageBatch _) = Returned ?bs,
      H2 : outcome (select_batch ?bs) = Returned ?b,
      H3 : outcome (await CreateTag _) = Returned ?t,
      H4 : outcome (await (UploadFilesFromDirectory _ _ _) _) = Returned ?r,
      H6 : outcome (await (WalletFromV3 _ _) _) = Returned ?w,
      H8 : outcome (writeFeed _ _ ?w _ _) = Returned _ |- _ =>
        destruct (writeFeed_returned _ _ _ _ _ _ H8) as (manifest & entry & _ & Hfeed & _);
        rewrite (writeFeed_trace _ _ _ _ _ _ H8);
        exists bs, b, t, r, w, entry;
        split; [exact (await_returned _ _ _ H1)|];
        split; [exact (select_batch_returned _ _ H2)|];
        split; [exact (await_returned _ _ _ H3)|];
        split; [exact (await_returned _ _ _ H4)|];
        split; [exact (await_returned _ _ _ H6)|];
        split; [exact Hfeed|in_ahead]
    end.
Qed.

(** X16. The status lines can be believed. What comes before
    'Artifact extracted!' includes the download of the archive located for
    the newest listed artifact, and that download succeeded. What comes
    before 'Uploading was successful!' includes the upload of './artifact'
    with the selected batch under the created tag and the whole run of the
    monitor on that tag, and that run reported it synced. What comes before 'Successfully uploaded
    to feed' includes the feed write, with the selected batch and the key
    of the unlocked wallet, of the reference the upload returned, and that
    write was accepted. *)
Theorem status_lines_are_truthful (env : Env) (before : list Event) (e : Event)
    (after : list Event) :
  trace (main env) = before ++ e :: after ->
  log_truthful env before e.
Proof.
  intros H. exact (follows_at _ _ [] _ _ _ (main_status_lines env) H).
Qed.

Lemma status_lines_are_truthful_witness :
  trace (main happy_env)
  = firstn 33 (trace (main happy_env))
      ++ ConsoleLog "Successfully uploaded to feed" :: skipn 34 (trace (main happy_env))
  /\ log_truthful happy_env (firstn 33 (trace (main happy_env)))
       (ConsoleLog "Successfully uploaded to feed").
Proof.
  assert (H : trace (main happy_env)
              = firstn 33 (trace (main happy_env))
                  ++ ConsoleLog "Successfully uploaded to feed"
                  :: skipn 34 (trace (main happy_env))) by reflexivity.
  split; [exact H|]. exact (status_lines_are_truthful _ _ _ _ H).
Defined.
